(** * ZPUI zones: differential rendering and grid layout (ui/status.py)

    A shallow embedding of [Zone], [ZoneSpacer], [VerticalZoneSpacer] and
    [ZoneManager] of [src/ui/status.py] (Python 2), and the properties of
    the change detection, the per-value image cache, the dirty flags and
    the two layout passes of [ZoneManager.show].

    Modelling choices.
    - Python values that a value callback returns are [pyval]: [None],
      integers and strings, on which Python's [==] is Rocq's equality and
      which are all hashable (they can be keys of the cache dict).
    - A callback is a function of the outside world [W] (clock, battery,
      ...) that it may read and change, and of the zone's attributes when
      the zone is built with [v_pass_self] / [i_pass_self].  Callbacks that
      raise are not modelled: the source does not catch them.
    - Calls on external collaborators (the logger, the canvas, the image
      callback) are recorded as [event]s, in order.
    - Python exceptions raised by the manager itself are an [exn] outcome;
      the state reached when the exception is raised is kept, as mutations
      made before a Python exception persist. *)

From Stdlib Require Import ZArith Lia Ascii.
From stdpp Require Import base option list gmap strings fin_maps.

Local Open Scope Z_scope.

(** ** Python values, images, events *)

Inductive pyval : Type :=
| VNone
| VInt (n : Z)
| VStr (s : string).

#[global] Instance pyval_eq_dec : EqDecision pyval.
Proof. solve_decision. Defined.

Definition pyval_encode (v : pyval) : unit + (Z + string) :=
  match v with
  | VNone => inl tt
  | VInt n => inr (inl n)
  | VStr s => inr (inr s)
  end.

Definition pyval_decode (x : unit + (Z + string)) : pyval :=
  match x with
  | inl _ => VNone
  | inr (inl n) => VInt n
  | inr (inr s) => VStr s
  end.

#[global] Instance pyval_countable : Countable pyval.
Proof.
  apply (inj_countable' pyval_encode pyval_decode).
  intros []; reflexivity.
Defined.

(** An image object: [img_id] stands for the identity of the Python object,
    [width] and [height] are the attributes the layout reads. *)
Record Image : Type := mkImage {
  img_id : nat;
  width : Z;
  height : Z
}.

#[global] Instance Image_eq_dec : EqDecision Image.
Proof. solve_decision. Defined.

(** What the code does to its collaborators. *)
Inductive event : Type :=
| LogDebug (name : option string) (new_value : pyval)
    (* logger.debug("Zone {}: new value {}") *)
| ImageCbCalled (v : pyval) (img : Image)
    (* image_cb(value[, self]) was invoked and returned img *)
| LogWarning (item : string)
    (* logger.warning("Zone {} unknown!") *)
| CanvasPaste (image : option Image) (x y : Z)
    (* self.c.paste(image, (x, y)) *)
| CanvasDisplay.
    (* self.c.display() *)

#[global] Instance event_eq_dec : EqDecision event.
Proof. solve_decision. Defined.

Definition is_image_call (ev : event) : bool :=
  match ev with ImageCbCalled _ _ => true | _ => false end.

(** Number of invocations of the image callback in a run of events. *)
Definition image_calls (evs : list event) : nat :=
  length (filter (λ ev, is_image_call ev = true) evs).

(** ** Zone *)

Section Zone.

Context {W : Type}.

(** The data attributes of a [Zone] object (what a callback that is passed
    [self] can read).  [cache] is the dict [self.cache]; without caching the
    attribute does not exist and the code never touches it. *)
Record ZoneAttrs : Type := mkZoneAttrs {
  value : pyval;
  image : option Image;
  prev_value : pyval;
  caching : bool;
  cache : gmap pyval Image;
  i_pass_self : bool;
  v_pass_self : bool;
  name : option string
}.

Record Zone : Type := mkZone {
  attrs : ZoneAttrs;
  value_cb : option ZoneAttrs → W → pyval * W;
  image_cb : pyval → option ZoneAttrs → W → Image * W
}.

(** [Zone.__init__]; [value], [image] and [prev_value] are the class
    attributes, all [None]. *)
Definition Zone_init
    (value_cb : option ZoneAttrs → W → pyval * W)
    (image_cb : pyval → option ZoneAttrs → W → Image * W)
    (caching i_pass_self v_pass_self : bool) (name : option string) : Zone :=
  {| attrs := {| value := VNone; image := None; prev_value := VNone;
                 caching := caching; cache := ∅;
                 i_pass_self := i_pass_self; v_pass_self := v_pass_self;
                 name := name |};
     value_cb := value_cb;
     image_cb := image_cb |}.

Definition set_attrs (z : Zone) (a : ZoneAttrs) : Zone :=
  {| attrs := a; value_cb := value_cb z; image_cb := image_cb z |}.

(** [self.prev_value = self.value; self.value = new_value] *)
Definition shift_value (a : ZoneAttrs) (new_value : pyval) : ZoneAttrs :=
  {| value := new_value; image := image a; prev_value := value a;
     caching := caching a; cache := cache a;
     i_pass_self := i_pass_self a; v_pass_self := v_pass_self a;
     name := name a |}.

(** [self.cache[self.value] = image] *)
Definition store_in_cache (a : ZoneAttrs) (img : Image) : ZoneAttrs :=
  {| value := value a; image := image a; prev_value := prev_value a;
     caching := caching a; cache := <[value a := img]> (cache a);
     i_pass_self := i_pass_self a; v_pass_self := v_pass_self a;
     name := name a |}.

(** [self.image = image] *)
Definition set_image (a : ZoneAttrs) (img : Image) : ZoneAttrs :=
  {| value := value a; image := Some img; prev_value := prev_value a;
     caching := caching a; cache := cache a;
     i_pass_self := i_pass_self a; v_pass_self := v_pass_self a;
     name := name a |}.

(** The outcome of a method of a zone: what it returns, the zone and the
    world afterwards, and the events it caused. *)
Record Done (A : Type) : Type := mkDone {
  returned : A;
  zone_after : Zone;
  world_after : W;
  emitted : list event
}.
Arguments mkDone {A} _ _ _ _.
Arguments returned {A} _.
Arguments zone_after {A} _.
Arguments world_after {A} _.
Arguments emitted {A} _.

(** The argument list of the value callback: [self] or nothing. *)
Definition value_cb_self (z : Zone) : option ZoneAttrs :=
  if v_pass_self (attrs z) then Some (attrs z) else None.

Definition image_cb_self (z : Zone) : option ZoneAttrs :=
  if i_pass_self (attrs z) then Some (attrs z) else None.

(** The value the value callback produces when invoked by zone [z] in
    world [w]. *)
Definition new_value_of (z : Zone) (w : W) : pyval :=
  (value_cb z (value_cb_self z) w).1.

(** [Zone.needs_refresh] *)
Definition needs_refresh (z : Zone) (w : W) : Done bool :=
  let '(new_value, w1) := value_cb z (value_cb_self z) w in
  if decide (new_value ≠ value (attrs z)) then
    mkDone true (set_attrs z (shift_value (attrs z) new_value)) w1
           [LogDebug (name (attrs z)) new_value]
  else
    mkDone false z w1 [].

(** [Zone.update_image] *)
Definition update_image (z : Zone) (w : W) : Done Image :=
  match (if caching (attrs z) then cache (attrs z) !! value (attrs z)
         else None) with
  | Some img => mkDone img z w []
  | None =>
      let '(img, w1) := image_cb z (value (attrs z)) (image_cb_self z) w in
      let z1 := if caching (attrs z)
                then set_attrs z (store_in_cache (attrs z) img)
                else z in
      mkDone img z1 w1 [ImageCbCalled (value (attrs z)) img]
  end.

(** [Zone.get_image] *)
Definition get_image (z : Zone) : option Image := image (attrs z).

(** [Zone.refresh] *)
Definition refresh (z : Zone) (w : W) : Done bool :=
  let n := needs_refresh z w in
  if returned n then
    let u := update_image (zone_after n) (world_after n) in
    mkDone true
           (set_attrs (zone_after u) (set_image (attrs (zone_after u)) (returned u)))
           (world_after u)
           (emitted n ++ emitted u)
  else
    mkDone false (zone_after n) (world_after n) (emitted n).

End Zone.

Arguments Zone : clear implicits.
Arguments Done : clear implicits.
Arguments mkDone {W A} _ _ _ _.
Arguments returned {W A} _.
Arguments zone_after {W A} _.
Arguments world_after {W A} _.
Arguments emitted {W A} _.

(** ** Layout arithmetic (Python 2 built-ins on lists of sizes)

    A size is an integer or Python's [None]: [option Z]. *)

(** [filter(None, l)]: the items that are truthy, that is neither [None]
    nor [0]. *)
Definition truthy (o : option Z) : option Z :=
  match o with
  | Some n => if decide (n = 0) then None else Some n
  | None => None
  end.

Definition py_filter_None (l : list (option Z)) : list Z := omap truthy l.

(** [sum(l)] *)
Definition py_sum (l : list Z) : Z := foldr Z.add 0 l.

(** Python 2 orders [None] below every integer. *)
Definition py_max2 (a b : option Z) : option Z :=
  match a, b with
  | None, _ => b
  | _, None => a
  | Some x, Some y => Some (Z.max x y)
  end.

(** [max(l)] on a non-empty list. *)
Definition py_max (l : list (option Z)) : option Z := foldr py_max2 None l.

(** [l.count(None)] *)
Fixpoint count_None (l : list (option Z)) : nat :=
  match l with
  | [] => O
  | None :: l' => S (count_None l')
  | Some _ :: l' => count_None l'
  end.

(** [if filter(None, item_heights): max(item_heights) else: None] *)
Definition row_height_of (item_heights : list (option Z)) : option Z :=
  match py_filter_None item_heights with
  | [] => None
  | _ :: _ => py_max item_heights
  end.

(** [for i, el in enumerate(sizes): if el is None: sizes[i] = spacing],
    from index [i] on, [n] items left. *)
Fixpoint fill_auto (spacing : Z) (n i : nat) (sizes : list (option Z))
  : list (option Z) :=
  match n with
  | O => sizes
  | S n' =>
      fill_auto spacing n' (S i)
        (match sizes !! i with
         | Some None => <[i := Some spacing]> sizes
         | _ => sizes
         end)
  end.

(** The redistribution of the space that is left, as [show] writes it for
    the rows (against [self.o.height]) and again for the items of a row
    (against [self.o.width]). *)
Definition redistribute (total : Z) (sizes : list (option Z))
  : list (option Z) :=
  let empty_amount := count_None sizes in
  if decide (empty_amount = O) then sizes
  else
    let empty_space := total - py_sum (py_filter_None sizes) in
    if decide (empty_space > 0) then
      let spacing := empty_space / Z.of_nat empty_amount in
      fill_auto spacing (length sizes) O sizes
    else sizes.

(** A size is known to be non-negative, or is unknown. *)
Definition nonneg_size (c : option Z) : Prop := ∀ n, c = Some n → 0 ≤ n.

(** ** ZoneManager *)

(** A cell of the markup: a string (a zone key, a filler such as ["..."],
    or an unknown name), a [ZoneSpacer] or a [VerticalZoneSpacer]. *)
Inductive cell : Type :=
| Str (s : string)
| ZoneSpacer (value : Z)
| VerticalZoneSpacer (value : Z).

#[global] Instance cell_eq_dec : EqDecision cell.
Proof. solve_decision. Defined.

Inductive exn : Type := TypeError | AttributeError | KeyError | IndexError.

Inductive outcome (A : Type) : Type :=
| Ret (a : A)
| Raise (x : exn).
Arguments Ret {A} _.
Arguments Raise {A} _.

(** [all([char == "." for char in item])] *)
Fixpoint all_dots (item : string) : bool :=
  match item with
  | EmptyString => true
  | String c rest => bool_decide (c = "."%char) && all_dots rest
  end.

Section ZoneManager.

Context {W : Type}.

(** The attributes of a [ZoneManager] the code reads and writes; [o_width]
    and [o_height] are [self.o.width] and [self.o.height]. *)
Record ZoneManager : Type := mkZoneManager {
  zones : gmap string (Zone W);
  markup : list (list cell);
  zones_that_need_refresh : gmap string bool;
  o_width : Z;
  o_height : Z
}.

Record Machine : Type := mkMachine {
  zm : ZoneManager;
  world : W
}.

Definition set_zone (k : string) (z : Zone W) (m : ZoneManager) : ZoneManager :=
  {| zones := <[k := z]> (zones m); markup := markup m;
     zones_that_need_refresh := zones_that_need_refresh m;
     o_width := o_width m; o_height := o_height m |}.

Definition set_flag (k : string) (b : bool) (m : ZoneManager) : ZoneManager :=
  {| zones := zones m; markup := markup m;
     zones_that_need_refresh := <[k := b]> (zones_that_need_refresh m);
     o_width := o_width m; o_height := o_height m |}.

(** A method of the manager: from a machine to an outcome, the machine
    afterwards and the events caused. *)
Definition M (A : Type) : Type := Machine → outcome A * Machine * list event.

Definition M_ret {A} (a : A) : M A := λ st, (Ret a, st, []).

Definition M_bind {A B} (f : A → M B) (m : M A) : M B :=
  λ st,
    match m st with
    | (Ret a, st1, evs1) =>
        match f a st1 with
        | (r, st2, evs2) => (r, st2, evs1 ++ evs2)
        end
    | (Raise x, st1, evs1) => (Raise x, st1, evs1)
    end.

#[global] Instance M_mret : MRet M := @M_ret.
#[global] Instance M_mbind : MBind M := @M_bind.

Definition raise {A} (x : exn) : M A := λ st, (Raise x, st, []).
Definition emit (ev : event) : M unit := λ st, (Ret tt, st, [ev]).
Definition gets {A} (f : ZoneManager → A) : M A := λ st, (Ret (f (zm st)), st, []).
Definition modify (f : ZoneManager → ZoneManager) : M unit :=
  λ st, (Ret tt, {| zm := f (zm st); world := world st |}, []).

(** [zone.refresh()] on the zone object stored under [k]. *)
Definition call_refresh (k : string) (zone : Zone W) : M bool :=
  λ st,
    let d := refresh zone (world st) in
    (Ret (returned d),
     {| zm := set_zone k (zone_after d) (zm st); world := world_after d |},
     emitted d).

(** [self.zones_that_need_refresh[k]] *)
Definition flag_of (k : string) : M bool :=
  flags ← gets zones_that_need_refresh;
  match flags !! k with
  | Some b => mret b
  | None => raise KeyError
  end.

Fixpoint for_each {A} (f : A → M unit) (l : list A) : M unit :=
  match l with
  | [] => mret tt
  | a :: l' => f a ;; for_each f l'
  end.

Fixpoint map_each {A B} (f : A → M B) (l : list A) : M (list B) :=
  match l with
  | [] => mret []
  | a :: l' => b ← f a; bs ← map_each f l'; mret (b :: bs)
  end.

(** The body of the loop of [refresh_on_start]. *)
Definition refresh_and_flag (item : string * Zone W) : M unit :=
  call_refresh item.1 item.2 ;;
  modify (set_flag item.1 true).

(** [ZoneManager.refresh_on_start]; [self.zones.items()] is a snapshot of
    the dict as a list. *)
Definition refresh_on_start : M unit :=
  items ← gets (λ m, map_to_list (zones m));
  for_each refresh_and_flag items.

(** [ZoneManager.__init__]: the attributes are bound, the flags start as
    an empty dict, then [refresh_on_start] runs. *)
Definition ZoneManager_init (o_width o_height : Z) (markup : list (list cell))
    (zones : gmap string (Zone W)) (w : W) : outcome unit * Machine * list event :=
  refresh_on_start
    {| zm := {| zones := zones; markup := markup;
                zones_that_need_refresh := ∅;
                o_width := o_width; o_height := o_height |};
       world := w |}.

(** [ZoneManager.get_element_height] *)
Definition get_element_height (element : cell) : M (option Z) :=
  zs ← gets zones;
  match element with
  | Str s =>
      match zs !! s with
      | Some zone =>
          match get_image zone with
          | Some img => mret (Some (height img))
          | None => raise AttributeError
          end
      | None => mret None
      end
  | VerticalZoneSpacer v => mret (Some v)
  | ZoneSpacer _ => mret None
  end.

(** [ZoneManager.get_element_width] *)
Definition get_element_width (element : cell) : M (option Z) :=
  zs ← gets zones;
  match element with
  | Str s =>
      match zs !! s with
      | Some zone =>
          match get_image zone with
          | Some img => mret (Some (width img))
          | None => raise AttributeError
          end
      | None => mret None
      end
  | ZoneSpacer v => mret (Some v)
  | VerticalZoneSpacer _ => mret None
  end.

(** The body of [for item in row] in the first loop of [show]. *)
Definition refresh_item (item : cell) : M unit :=
  zs ← gets zones;
  match item with
  | Str s =>
      match zs !! s with
      | Some zone =>
          has_refreshed ← call_refresh s zone;
          if (has_refreshed : bool) then
            flag ← flag_of s;
            if negb (flag : bool) then modify (set_flag s true) else mret tt
          else mret tt
      | None =>
          if all_dots s then mret tt else emit (LogWarning s)
      end
  | ZoneSpacer _ | VerticalZoneSpacer _ => mret tt
  end.

(** The first loop of [show]: refresh the zones of each row, then measure
    the row; the result is [row_heights]. *)
Fixpoint measure_rows (rows : list (list cell)) : M (list (option Z)) :=
  match rows with
  | [] => mret []
  | row :: rest =>
      for_each refresh_item row ;;
      item_heights ← map_each get_element_height row;
      row_heights ← measure_rows rest;
      mret (row_height_of item_heights :: row_heights)
  end.

(** [x += width]: a [TypeError] when [width] is [None]. *)
Definition py_iadd (x : Z) (width : option Z) : M Z :=
  match width with
  | Some n => mret (x + n)
  | None => raise TypeError
  end.

(** [l[i]] *)
Definition py_index {A} (l : list A) (i : nat) : M A :=
  match l !! i with
  | Some a => mret a
  | None => raise IndexError
  end.

(** [item in self.zones], with [self.zones[item]]: only a string can be a
    key of the zones. *)
Definition zone_of (zs : gmap string (Zone W)) (item : cell)
  : option (string * Zone W) :=
  match item with
  | Str s => (λ zone, (s, zone)) <$> zs !! s
  | ZoneSpacer _ | VerticalZoneSpacer _ => None
  end.

(** The body of [for i, item in enumerate(row)] in the second loop of
    [show], with the cursor at [(x, y)]; the result is the new [x]. *)
Definition draw_item (item_widths : list (option Z)) (y : Z) (i : nat) (x : Z)
    (item : cell) : M Z :=
  width ← py_index item_widths i;
  zs ← gets zones;
  match zone_of zs item with
  | None => py_iadd x width
  | Some (s, zone) =>
      flag ← flag_of s;
      (if (flag : bool) then
         emit (CanvasPaste (get_image zone) x y) ;;
         modify (set_flag s false)
       else mret tt) ;;
      py_iadd x width
  end.

Fixpoint draw_items (item_widths : list (option Z)) (y : Z) (i : nat) (x : Z)
    (items : list cell) : M Z :=
  match items with
  | [] => mret x
  | item :: rest =>
      x1 ← draw_item item_widths y i x item;
      draw_items item_widths y (S i) x1 rest
  end.

(** The body of [for i, row in enumerate(self.markup)] in the second loop
    of [show], with the cursor at [y]; the result is the new [y]. *)
Definition draw_row (row_heights : list (option Z)) (i : nat) (y : Z)
    (row : list cell) : M Z :=
  row_height ← py_index row_heights i;
  item_widths ← map_each get_element_width row;
  total ← gets o_width;
  _ ← draw_items (redistribute total item_widths) y O 0 row;
  py_iadd y row_height.

Fixpoint draw_rows (row_heights : list (option Z)) (i : nat) (y : Z)
    (rows : list (list cell)) : M Z :=
  match rows with
  | [] => mret y
  | row :: rest =>
      y1 ← draw_row row_heights i y row;
      draw_rows row_heights (S i) y1 rest
  end.

(** [ZoneManager.show] *)
Definition show : M unit :=
  rows ← gets markup;
  row_heights ← measure_rows rows;
  total ← gets o_height;
  _ ← draw_rows (redistribute total row_heights) O 0 rows;
  emit CanvasDisplay.

End ZoneManager.

Arguments ZoneManager : clear implicits.
Arguments Machine : clear implicits.
Arguments M : clear implicits.

(** ** Histories of a zone *)

(** [refreshed_from z z']: [z'] is the zone [z] after some number of calls
    of [refresh], each in whatever world it then finds. *)
Inductive refreshed_from {W : Type} (z : Zone W) : Zone W → Prop :=
| refreshed_none : refreshed_from z z
| refreshed_again z' w :
    refreshed_from z z' →
    refreshed_from z (zone_after (refresh z' w)).


(** A zone was pasted: the canvas received its current image. *)
Definition pasted_in {W : Type} (evs : list event) (zone : Zone W) : Prop :=
  ∃ x y, CanvasPaste (get_image zone) x y ∈ evs.

(** ** What the two loops of [show] keep *)

(** [m] keeps [R], a relation between the machine before, the machine after
    and the events in between: however [m] ends, with a result or an
    exception. *)
Definition keeps {W A} (R : Machine W → Machine W → list event → Prop)
    (m : M W A) : Prop :=
  ∀ st, R st (m st).1.2 (m st).2.

Definition flags_of {W} (st : Machine W) : gmap string bool :=
  zones_that_need_refresh (zm st).

(** The first loop of [show] (refresh and measure): a flag is left as it
    is or, if it exists, set; the zones keep their keys; nothing is pasted. *)
Definition first_loop_rel {W} (st st' : Machine W) (evs : list event) : Prop :=
  (∀ k, flags_of st' !! k = flags_of st !! k ∨
        (flags_of st' !! k = Some true ∧ is_Some (flags_of st !! k))) ∧
  (∀ k, is_Some (zones (zm st') !! k) ↔ is_Some (zones (zm st) !! k)) ∧
  markup (zm st') = markup (zm st) ∧
  (∀ img x y, CanvasPaste img x y ∉ evs).

(** The second loop of [show] (draw): the zones are not touched; a flag is
    left as it is or goes from set to cleared, with the zone pasted; and
    whatever is pasted is the image of a zone whose flag is then cleared. *)
Definition second_loop_rel {W} (st st' : Machine W) (evs : list event) : Prop :=
  zones (zm st') = zones (zm st) ∧
  (∀ k, flags_of st' !! k = flags_of st !! k ∨
        (flags_of st !! k = Some true ∧ flags_of st' !! k = Some false ∧
         ∃ zone, zones (zm st) !! k = Some zone ∧ pasted_in evs zone)) ∧
  (∀ img x y, CanvasPaste img x y ∈ evs →
     ∃ k zone, zones (zm st) !! k = Some zone ∧ get_image zone = img ∧
               flags_of st' !! k = Some false).

(** Nothing happens: the machine is the same and there is no event. *)
Definition idle {W} (st st' : Machine W) (evs : list event) : Prop :=
  st' = st ∧ evs = [].

(** Unfolding of the monad's operations on a machine. *)
Ltac run_M :=
  unfold mbind, mret, M_mbind, M_mret, M_bind, M_ret, gets, modify, emit,
    raise; simpl.

(** ** Concrete zones and managers used to run the code *)

Module Sample.

Definition icon (id : nat) (w h : Z) : Image :=
  {| img_id := id; width := w; height := h |}.

(** A zone whose value callback always returns [v] and whose image callback
    always returns [img]; the world is not used. *)
Definition const_zone (v : pyval) (img : Image) (caching : bool) : Zone unit :=
  Zone_init (λ _ w, (v, w)) (λ _ _ w, (img, w)) caching false false None.

(** A zone over a counter as the world: its value is the parity of the
    counter, and each call of its image callback renders a fresh image
    object, whose identity is the counter, and advances the counter. *)
Definition counter_zone (caching : bool) : Zone Z :=
  Zone_init (λ _ w, (VInt (w mod 2), w))
            (λ _ _ w, (icon (Z.to_nat w) 8 8, w + 2)) caching false false
            (Some "counter").

(** The machine that construction leaves. *)
Definition built {W} (ow oh : Z) (mk : list (list cell))
    (zs : gmap string (Zone W)) (w : W) : Machine W :=
  (ZoneManager_init ow oh mk zs w).1.2.

Definition one_zone : gmap string (Zone unit) :=
  {[ "a" := const_zone (VInt 1) (icon 0 10 10) true ]}.

(** A fixed row that fills a display of height 64, then a filler row. *)
Definition full_then_filler : Machine unit :=
  built 128 64 [[VerticalZoneSpacer 64]; [Str "..."]] ∅ tt.

(** A fixed row that fills the display, then a row with an unknown key. *)
Definition full_then_unknown : Machine unit :=
  built 128 64 [[VerticalZoneSpacer 64]; [Str "ZZZ"]] ∅ tt.

(** A row with an unknown key and a row with a filler, with room. *)
Definition unknown_with_room : Machine unit :=
  built 128 64 [[Str "ZZZ"]; [Str "..."]] ∅ tt.

(** The same zone in two cells of a row. *)
Definition same_zone_twice : Machine unit :=
  built 128 64 [[Str "a"; Str "a"]] one_zone tt.

(** A spacer of width 0, and a filler, before a zone. *)
Definition zero_spacer_first : Machine unit :=
  built 110 64 [[ZoneSpacer 0; Str "a"; Str "."]] one_zone tt.

Definition filler_first : Machine unit :=
  built 110 64 [[Str "."; Str "a"; Str "."]] one_zone tt.

(** What a run shows from outside: the outcome, the flags, the events. *)
Definition observe {W A} (r : outcome A * Machine W * list event)
  : outcome A * list (string * bool) * list event :=
  (r.1.1, map_to_list (zones_that_need_refresh (zm r.1.2)), r.2).

End Sample.

(** ** What [show] as a whole keeps *)

(** Both loops of [show]: the zones and the flags keep their keys, the
    markup and the size of the output stay, a zone that has an image keeps
    having one, a warning is only ever about a string that is neither a key
    of the zones nor made of dots, and the canvas is not displayed. *)
Definition show_rel {W} (st st' : Machine W) (evs : list event) : Prop :=
  (∀ k, is_Some (zones (zm st') !! k) ↔ is_Some (zones (zm st) !! k)) ∧
  (∀ k, is_Some (flags_of st' !! k) ↔ is_Some (flags_of st !! k)) ∧
  markup (zm st') = markup (zm st) ∧
  o_width (zm st') = o_width (zm st) ∧
  o_height (zm st') = o_height (zm st) ∧
  (∀ k z, zones (zm st) !! k = Some z → is_Some (get_image z) →
          ∃ z', zones (zm st') !! k = Some z' ∧ is_Some (get_image z')) ∧
  (∀ s, LogWarning s ∈ evs →
        all_dots s = false ∧ zones (zm st) !! s = None) ∧
  CanvasDisplay ∉ evs.

(** [m] is safe from the exception [x] under the invariant [P]: from a
    machine that satisfies [P] it leaves one that does, and it does not
    raise [x]. *)
Definition safe {W A} (P : Machine W → Prop) (x : exn) (m : M W A) : Prop :=
  ∀ st, P st → P (m st).1.2 ∧ (m st).1.1 ≠ Raise x.

(** All the events in between satisfy [P]. *)
Definition only_events {W} (P : event → Prop)
    (st st' : Machine W) (evs : list event) : Prop :=
  ∀ ev, ev ∈ evs → P ev.

(** Every zone has a flag: what [refresh_on_start] establishes. *)
Definition flags_cover {W} (st : Machine W) : Prop :=
  ∀ k, is_Some (zones (zm st) !! k) → is_Some (flags_of st !! k).

(** The manager after some calls of [show], each in whatever world it then
    finds, and however each ended. *)
Inductive shown_from {W : Type} (st : Machine W) : Machine W → Prop :=
| shown_none : shown_from st st
| shown_again st' w :
    shown_from st st' →
    shown_from st (show {| zm := zm st'; world := w |}).1.2.



(** The sum of the sizes that are known. *)
Definition known_total (sizes : list (option Z)) : Z :=
  py_sum (omap id sizes).

(** ** utils.py: clamping and list indices *)

Module Utils.

(** [clamp(value, _min, _max)], on integers. *)
Definition clamp (value _min _max : Z) : Z :=
  Z.max _min (Z.min value _max).

(** [modulo_list_index(value, _list)]: [value % len(_list)]; [None] stands
    for the [ZeroDivisionError] that Python raises on an empty list. *)
Definition modulo_list_index {A} (value : Z) (_list : list A) : option Z :=
  if decide (length _list = O) then None
  else Some (value `mod` Z.of_nat (length _list)).

(** [clamp_list_index(value, _list)] *)
Definition clamp_list_index {A} (value : Z) (_list : list A) : Z :=
  clamp value 0 (Z.of_nat (length _list) - 1).

(** [_list[i]]: a negative index counts from the end; [None] stands for
    [IndexError]. *)
Definition py_getitem {A} (_list : list A) (i : Z) : option A :=
  if decide (0 ≤ i) then _list !! Z.to_nat i
  else if decide (- Z.of_nat (length _list) ≤ i)
       then _list !! Z.to_nat (Z.of_nat (length _list) + i)
       else None.

End Utils.

(** ** utils.py: Ticker and Chronometer

    The clock readings are floats in the source; here they are values of a
    type [T] with a subtraction and an addition about which nothing is
    assumed, and [t_zero] is the [0] that [elapsed] starts from.  A method
    that calls [time()] takes the reading as its argument [now]. *)

Module Chrono.

Section Chrono.

Context {T : Type} (t_zero : T) (t_add t_sub : T → T → T).

Record Ticker : Type := mkTicker {
  ticker_active : bool;
  last_call : T
}.

(** [Ticker.__init__] *)
Definition Ticker_init (now : T) : Ticker :=
  {| ticker_active := false; last_call := now |}.

(** [Ticker.tick]: the time since the previous tick, and the ticker. *)
Definition tick (now : T) (tk : Ticker) : T * Ticker :=
  (t_sub now (last_call tk),
   {| ticker_active := ticker_active tk; last_call := now |}).

Record Chronometer : Type := mkChronometer {
  active : bool;
  cron : Ticker;
  elapsed : T
}.

(** [Chronometer.__init__] *)
Definition Chronometer_init (now : T) : Chronometer :=
  {| active := false; cron := Ticker_init now; elapsed := t_zero |}.

(** [Chronometer.update]; [now] is read only when the chronometer is
    active. *)
Definition update (now : T) (c : Chronometer) : Chronometer :=
  if negb (active c) then c
  else
    let '(dt, tk) := tick now (cron c) in
    {| active := active c; cron := tk; elapsed := t_add (elapsed c) dt |}.

(** [Chronometer.stop] *)
Definition stop (now : T) (c : Chronometer) : Chronometer :=
  {| active := false; cron := (tick now (cron c)).2; elapsed := t_zero |}.

(** [Chronometer.pause] *)
Definition pause (c : Chronometer) : Chronometer :=
  {| active := false; cron := cron c; elapsed := elapsed c |}.

(** [Chronometer.resume] *)
Definition resume (now : T) (c : Chronometer) : Chronometer :=
  {| active := true; cron := (tick now (cron c)).2; elapsed := elapsed c |}.

(** [Chronometer.start]: [stop] then [resume], two readings of the clock. *)
Definition start (now1 now2 : T) (c : Chronometer) : Chronometer :=
  resume now2 (stop now1 c).

(** [Chronometer.toggle] *)
Definition toggle (now : T) (c : Chronometer) : Chronometer :=
  if active c then pause c else resume now c.

(** [Chronometer.restart] *)
Definition restart (now1 now2 : T) (c : Chronometer) : Chronometer :=
  start now1 now2 c.

(** Updates at the readings [nows], one after the other. *)
Definition updates (nows : list T) (c : Chronometer) : Chronometer :=
  foldl (λ c now, update now c) c nows.

End Chrono.

End Chrono.

(** ** loading_indicators.py *)

Module Loading.

(** [s * n] on a string: [n] copies, none when [n] is not positive. *)
Definition py_str_repeat (s : string) (n : Z) : string :=
  Nat.iter (Z.to_nat n) (String.append s) "".

(** The attributes of an [IdleDottedMessage] that [on_refresh] uses. *)
Record IdleDottedMessage : Type := mkIdleDottedMessage {
  message : string;
  dot_count : Z
}.

(** [IdleDottedMessage.on_refresh]: the text to show, and the object. *)
Definition on_refresh (d : IdleDottedMessage) : string * IdleDottedMessage :=
  let dot_count' := (dot_count d + 1) `mod` 4 in
  (message d +:+ py_str_repeat "." dot_count',
   {| message := message d; dot_count := dot_count' |}).

(** The object after [n] calls of [on_refresh]. *)
Definition refreshes (n : nat) (d : IdleDottedMessage) : IdleDottedMessage :=
  Nat.iter n (λ d, (on_refresh d).2) d.

(** The attributes of a [LoadingIndicator] that [run_in_background] uses:
    [t] is whether [self.t] is a thread, [in_foreground] is the attribute of
    that name, which the user interface sets. *)
Record LoadingIndicator : Type := mkLoadingIndicator {
  t : bool;
  in_foreground : bool
}.

(** [LoadingIndicator.run_in_background]: [None] stands for the
    [Exception("LoadingIndicator already running!")]; otherwise the
    indicator, with a thread that was started. *)
Definition run_in_background (li : LoadingIndicator) : option LoadingIndicator :=
  if t li || in_foreground li then None
  else Some {| t := true; in_foreground := in_foreground li |}.

(** Calls of [run_in_background], one for each entry of [fgs], before each
    of which the user interface has set [in_foreground] to the entry; the
    result is the number of threads started and the indicator. *)
Fixpoint background_runs (fgs : list bool) (li : LoadingIndicator)
  : nat * LoadingIndicator :=
  match fgs with
  | [] => (O, li)
  | fg :: rest =>
      let li1 := {| t := t li; in_foreground := fg |} in
      match run_in_background li1 with
      | Some li2 =>
          let '(n, li3) := background_runs rest li2 in (S n, li3)
      | None => background_runs rest li1
      end
  end.

End Loading.

(** * Properties *)

(** ** Zone: change detection *)

Section ZoneFacts.

Context {W : Type}.
Implicit Types (z : Zone W) (w : W).

Lemma needs_refresh_returned z w :
  returned (needs_refresh z w) = bool_decide (new_value_of z w ≠ value (attrs z)).
Proof.
  unfold needs_refresh, new_value_of.
  destruct (value_cb z (value_cb_self z) w) as [nv w1]; simpl.
  case_decide; case_bool_decide; done.
Qed.

Lemma needs_refresh_changed z w :
  new_value_of z w ≠ value (attrs z) →
  needs_refresh z w =
    mkDone true (set_attrs z (shift_value (attrs z) (new_value_of z w)))
           (value_cb z (value_cb_self z) w).2
           [LogDebug (name (attrs z)) (new_value_of z w)].
Proof.
  unfold needs_refresh, new_value_of.
  destruct (value_cb z (value_cb_self z) w) as [nv w1]; simpl.
  intros Hne. case_decide; done.
Qed.

Lemma needs_refresh_same z w :
  new_value_of z w = value (attrs z) →
  needs_refresh z w = mkDone false z (value_cb z (value_cb_self z) w).2 [].
Proof.
  unfold needs_refresh, new_value_of.
  destruct (value_cb z (value_cb_self z) w) as [nv w1]; simpl.
  intros Heq. case_decide; done.
Qed.

Lemma refresh_returned z w :
  returned (refresh z w) = returned (needs_refresh z w).
Proof. unfold refresh. by destruct (returned (needs_refresh z w)). Qed.

Lemma update_image_hit z w img :
  caching (attrs z) = true →
  cache (attrs z) !! value (attrs z) = Some img →
  update_image z w = mkDone img z w [].
Proof. unfold update_image. by intros -> ->. Qed.

Lemma update_image_miss z w :
  caching (attrs z) = true →
  cache (attrs z) !! value (attrs z) = None →
  update_image z w =
    let r := image_cb z (value (attrs z)) (image_cb_self z) w in
    mkDone r.1 (set_attrs z (store_in_cache (attrs z) r.1)) r.2
           [ImageCbCalled (value (attrs z)) r.1].
Proof.
  unfold update_image. intros -> ->.
  by destruct (image_cb z (value (attrs z)) (image_cb_self z) w).
Qed.

Lemma update_image_nocache z w :
  caching (attrs z) = false →
  update_image z w =
    let r := image_cb z (value (attrs z)) (image_cb_self z) w in
    mkDone r.1 z r.2 [ImageCbCalled (value (attrs z)) r.1].
Proof.
  unfold update_image. intros ->.
  by destruct (image_cb z (value (attrs z)) (image_cb_self z) w).
Qed.

(** [update_image] leaves alone everything but the cache. *)
Lemma update_image_frame z w :
  let z' := zone_after (update_image z w) in
  value (attrs z') = value (attrs z) ∧
  caching (attrs z') = caching (attrs z) ∧
  image (attrs z') = image (attrs z) ∧
  value_cb z' = value_cb z ∧ image_cb z' = image_cb z.
Proof.
  unfold update_image.
  destruct (caching (attrs z)) eqn:Hc;
    [destruct (cache (attrs z) !! value (attrs z)) |];
    simpl; try done;
    destruct (image_cb z (value (attrs z)) (image_cb_self z) w);
    simpl; rewrite ?Hc; done.
Qed.

(** The cache only grows: an entry, once there, stays as it is. *)
Lemma update_image_cache_mono z w k img :
  cache (attrs z) !! k = Some img →
  cache (attrs (zone_after (update_image z w))) !! k = Some img.
Proof.
  intros Hk. unfold update_image.
  destruct (caching (attrs z)) eqn:Hc; simpl.
  - destruct (cache (attrs z) !! value (attrs z)) as [i|] eqn:Hv; simpl; [done|].
    destruct (image_cb z (value (attrs z)) (image_cb_self z) w); simpl.
    rewrite lookup_insert_ne; [done|]. intros <-. congruence.
  - by destruct (image_cb z (value (attrs z)) (image_cb_self z) w).
Qed.

Lemma refresh_frame z w :
  let z' := zone_after (refresh z w) in
  caching (attrs z') = caching (attrs z) ∧
  value_cb z' = value_cb z ∧ image_cb z' = image_cb z.
Proof.
  unfold refresh, needs_refresh.
  destruct (value_cb z (value_cb_self z) w) as [nv w1].
  case_decide; simpl; [|done].
  pose proof (update_image_frame
                (set_attrs z (shift_value (attrs z) nv)) w1) as H'.
  simpl in H'. destruct H' as (_ & Hc & _ & Hv & Hi). done.
Qed.

Lemma refresh_cache_mono z w k img :
  cache (attrs z) !! k = Some img →
  cache (attrs (zone_after (refresh z w))) !! k = Some img.
Proof.
  intros Hk. unfold refresh, needs_refresh.
  destruct (value_cb z (value_cb_self z) w) as [nv w1].
  case_decide; simpl; [|done].
  by apply update_image_cache_mono.
Qed.

Lemma refreshed_from_frame z z' :
  refreshed_from z z' →
  caching (attrs z') = caching (attrs z) ∧
  value_cb z' = value_cb z ∧ image_cb z' = image_cb z.
Proof.
  induction 1 as [|z' w _ IH]; [done|].
  destruct (refresh_frame z' w) as (Hc & Hv & Hi), IH as (Hc' & Hv' & Hi').
  repeat split; congruence.
Qed.


End ZoneFacts.

Section ZoneClaims.

Context {W : Type}.
Implicit Types (z : Zone W) (w : W).

(** C1, as amended.  [refresh] returns true exactly when the value the
    value callback produces differs from the stored value.  On the first
    call after construction the stored value is [None], so [refresh]
    returns true exactly when the callback produces something other than
    [None]. *)
Theorem refresh_reports_change z w vcb icb c ip vp n :
  (returned (refresh z w) = true ↔ new_value_of z w ≠ value (attrs z)) ∧
  (returned (refresh (Zone_init vcb icb c ip vp n) w) = true ↔
   new_value_of (Zone_init vcb icb c ip vp n) w ≠ VNone).
Proof.
  assert (∀ z', returned (refresh z' w) = true ↔
                new_value_of z' w ≠ value (attrs z')) as Hiff.
  { intros z'. rewrite refresh_returned, needs_refresh_returned.
    apply bool_decide_eq_true. }
  split; apply Hiff.
Qed.

(** An image that a refresh of a caching zone had rendered is in the cache
    afterwards, under the value it was rendered for. *)
Lemma refresh_image_call_cached z w v img :
  caching (attrs z) = true →
  ImageCbCalled v img ∈ emitted (refresh z w) →
  cache (attrs (zone_after (refresh z w))) !! v = Some img.
Proof.
  intros Hc. unfold refresh.
  destruct (decide (new_value_of z w = value (attrs z))) as [Heq|Hne].
  { rewrite (needs_refresh_same _ _ Heq); simpl. by intros ?%elem_of_nil. }
  rewrite (needs_refresh_changed _ _ Hne); simpl.
  set (z1 := set_attrs z (shift_value (attrs z) (new_value_of z w))).
  assert (caching (attrs z1) = true) as Hc1 by done.
  destruct (cache (attrs z1) !! value (attrs z1)) as [i|] eqn:Hv.
  - rewrite (update_image_hit _ _ _ Hc1 Hv); simpl.
    rewrite elem_of_cons, elem_of_nil. intros [[=]|[]].
  - rewrite (update_image_miss _ _ Hc1 Hv); simpl.
    rewrite !elem_of_cons, elem_of_nil. intros [[=]|[[= -> ->]|[]]].
    apply lookup_insert_eq.
Qed.

(** What a refresh does when the value changes to one that is cached. *)
Lemma refresh_cache_hit z w img :
  caching (attrs z) = true →
  new_value_of z w ≠ value (attrs z) →
  cache (attrs z) !! new_value_of z w = Some img →
  returned (refresh z w) = true ∧
  get_image (zone_after (refresh z w)) = Some img ∧
  emitted (refresh z w) = [LogDebug (name (attrs z)) (new_value_of z w)] ∧
  cache (attrs (zone_after (refresh z w))) = cache (attrs z).
Proof.
  intros Hc Hne Hk. unfold refresh.
  rewrite (needs_refresh_changed _ _ Hne); simpl.
  set (z1 := set_attrs z (shift_value (attrs z) (new_value_of z w))).
  assert (caching (attrs z1) = true) as Hc1 by done.
  assert (cache (attrs z1) !! value (attrs z1) = Some img) as Hv by done.
  by rewrite (update_image_hit _ _ _ Hc1 Hv).
Qed.

(** The image kept by a caching zone is the cache's entry for its value,
    once that entry exists. *)
Lemma refresh_keeps_cached_image z w v img :
  caching (attrs z) = true →
  cache (attrs z) !! v = Some img →
  (value (attrs z) = v → get_image z = Some img) →
  value (attrs (zone_after (refresh z w))) = v →
  get_image (zone_after (refresh z w)) = Some img.
Proof.
  intros Hc Hk Hcur.
  destruct (decide (new_value_of z w = value (attrs z))) as [Heq|Hne].
  - unfold refresh. by rewrite (needs_refresh_same _ _ Heq).
  - intros Hv.
    assert (new_value_of z w = v) as <-.
    { revert Hv. unfold refresh.
      rewrite (needs_refresh_changed _ _ Hne); simpl.
      by destruct (update_image_frame
                     (set_attrs z (shift_value (attrs z) (new_value_of z w)))
                     (value_cb z (value_cb_self z) w).2) as (-> & _). }
    by destruct (refresh_cache_hit _ w _ Hc Hne Hk) as (_ & ? & _).
Qed.

(** C2.  In a caching zone, once a refresh has rendered and stored the
    image [img] for the value [v], then after any further refreshes:
    [update_image] with current value [v] returns [img] itself and does not
    invoke the image callback; a zone whose value is [v] holds [img]; and a
    refresh in which the value becomes [v] again returns true, keeps [img]
    as the zone's image and invokes the image callback zero times. *)
Theorem cached_image_is_reused z w v img z2 :
  caching (attrs z) = true →
  ImageCbCalled v img ∈ emitted (refresh z w) →
  refreshed_from (zone_after (refresh z w)) z2 →
  (∀ w2, value (attrs z2) = v →
         update_image z2 w2 = mkDone img z2 w2 [] ∧ get_image z2 = Some img) ∧
  (∀ w2, new_value_of z2 w2 = v → value (attrs z2) ≠ v →
         returned (refresh z2 w2) = true ∧
         get_image (zone_after (refresh z2 w2)) = Some img ∧
         image_calls (emitted (refresh z2 w2)) = O).
Proof.
  intros Hc Hev Hreach.
  pose proof (refresh_image_call_cached _ _ _ _ Hc Hev) as Hk1.
  destruct (refresh_frame z w) as (Hc1 & _). rewrite Hc in Hc1.
  assert (get_image (zone_after (refresh z w)) = Some img ∧
          value (attrs (zone_after (refresh z w))) = v) as [Himg1 Hval1].
  { revert Hev. unfold refresh.
    destruct (decide (new_value_of z w = value (attrs z))) as [Heq|Hne].
    { rewrite (needs_refresh_same _ _ Heq); simpl. by intros ?%elem_of_nil. }
    rewrite (needs_refresh_changed _ _ Hne); simpl.
    set (z1 := set_attrs z (shift_value (attrs z) (new_value_of z w))).
    assert (caching (attrs z1) = true) as Hcz by done.
    destruct (cache (attrs z1) !! value (attrs z1)) as [i|] eqn:Hv.
    - rewrite (update_image_hit _ _ _ Hcz Hv); simpl.
      rewrite elem_of_cons, elem_of_nil. intros [[=]|[]].
    - rewrite (update_image_miss _ _ Hcz Hv); simpl.
      rewrite !elem_of_cons, elem_of_nil. by intros [[=]|[[= -> ->]|[]]]. }
  assert (caching (attrs z2) = true ∧
          cache (attrs z2) !! v = Some img ∧
          (value (attrs z2) = v → get_image z2 = Some img)) as (Hc2 & Hk2 & Hi2).
  { clear Hev. induction Hreach as [|z' w' _ IH]; [done|].
    destruct IH as (Hc' & Hk' & Hi').
    destruct (refresh_frame z' w') as (Hcf & _).
    split; [congruence|]. split; [by apply refresh_cache_mono|].
    by apply refresh_keeps_cached_image. }
  split.
  - intros w2 Hv. split; [|by apply Hi2].
    apply update_image_hit; [done|]. by rewrite Hv.
  - intros w2 Hnv Hne.
    assert (new_value_of z2 w2 ≠ value (attrs z2)) as Hne' by congruence.
    rewrite <- Hnv in Hk2.
    destruct (refresh_cache_hit _ w2 _ Hc2 Hne' Hk2) as (-> & -> & -> & _).
    done.
Qed.



End ZoneClaims.

(** ** Zone: the claims on concrete zones *)

Section ZoneRuns.

Import Sample.

(** C1, counterexample.  A zone whose value callback produces [None]:
    the first [refresh] after construction returns false. *)
Lemma first_refresh_of_None_returns_false :
  new_value_of (const_zone VNone (icon 0 8 8) true) tt = VNone ∧
  returned (refresh (const_zone VNone (icon 0 8 8) true) tt) = false.
Proof. split; reflexivity. Qed.


(** C2 on the caching counter: rendered for 0, then the value goes to 1,
    then back to 0. *)
Lemma cached_image_is_reused_witness :
  let z := counter_zone true in
  let z1 := zone_after (refresh z 0) in
  let z2 := zone_after (refresh z1 3) in
  (caching (attrs z) = true ∧
   ImageCbCalled (VInt 0) (icon 0 8 8) ∈ emitted (refresh z 0) ∧
   refreshed_from z1 z2) ∧
  (new_value_of z2 4 = VInt 0 ∧ value (attrs z2) ≠ VInt 0) ∧
  returned (refresh z2 4) = true ∧
  get_image (zone_after (refresh z2 4)) = Some (icon 0 8 8) ∧
  image_calls (emitted (refresh z2 4)) = O.
Proof.
  intros z z1 z2.
  assert (caching (attrs z) = true) as H1 by reflexivity.
  assert (ImageCbCalled (VInt 0) (icon 0 8 8) ∈ emitted (refresh z 0)) as H2.
  { vm_compute. apply list_elem_of_further, list_elem_of_here. }
  assert (refreshed_from z1 z2) as H3
    by apply refreshed_again, refreshed_none.
  assert (new_value_of z2 4 = VInt 0) as H4 by reflexivity.
  assert (value (attrs z2) ≠ VInt 0) as H5 by (vm_compute; discriminate).
  split; [done|]. split; [done|].
  exact (proj2 (cached_image_is_reused z 0 (VInt 0) (icon 0 8 8) z2 H1 H2 H3)
               4 H4 H5).
Defined.



End ZoneRuns.

(** ** Layout arithmetic *)

Section Layout.

Implicit Types (l sizes : list (option Z)) (D : Z).

Lemma fill_auto_length spacing n i sizes :
  length (fill_auto spacing n i sizes) = length sizes.
Proof.
  revert i sizes. induction n as [|n IH]; intros i sizes; simpl; [done|].
  rewrite IH. destruct (sizes !! i) as [[?|]|]; [done| |done].
  apply length_insert.
Qed.

(** The loop replaces the [None]s it walks over and nothing else. *)
Lemma fill_auto_lookup spacing n i sizes j :
  fill_auto spacing n i sizes !! j =
    if decide (i ≤ j < i + n)%nat then
      match sizes !! j with
      | Some None => Some (Some spacing)
      | o => o
      end
    else sizes !! j.
Proof.
  revert i sizes. induction n as [|n IH]; intros i sizes; simpl.
  { case_decide; [lia|done]. }
  rewrite IH. destruct (decide (j = i)) as [->|Hji].
  - rewrite decide_False by lia. rewrite decide_True by lia.
    destruct (sizes !! i) as [[?|]|] eqn:Hi; rewrite ?Hi; try done.
    apply list_lookup_insert_eq. by eapply lookup_lt_Some.
  - assert ((match sizes !! i with
             | Some None => <[i:=Some spacing]> sizes
             | _ => sizes
             end) !! j = sizes !! j) as ->.
    { destruct (sizes !! i) as [[?|]|]; try done.
      by apply list_lookup_insert_ne. }
    repeat case_decide; try done; lia.
Qed.


Lemma redistribute_length D l : length (redistribute D l) = length l.
Proof.
  unfold redistribute. repeat case_decide; try done. apply fill_auto_length.
Qed.

(** A known size is never changed. *)
Lemma redistribute_known D l i h :
  l !! i = Some (Some h) → redistribute D l !! i = Some (Some h).
Proof.
  intros Hi. unfold redistribute. repeat case_decide; try done.
  rewrite fill_auto_lookup, Hi. by case_decide.
Qed.


(** Without space left, nothing is resolved: unknown sizes stay [None]. *)
Lemma redistribute_no_space D l :
  D - py_sum (py_filter_None l) ≤ 0 → redistribute D l = l.
Proof.
  intros Hle. unfold redistribute. repeat case_decide; done || lia.
Qed.

Lemma py_max_is_Some l n : Some n ∈ l → is_Some (py_max l).
Proof.
  induction l as [|c l IH]; [by intros ?%elem_of_nil|].
  rewrite elem_of_cons. simpl. intros [<-|Hin].
  - destruct (py_max l); simpl; eauto.
  - destruct (IH Hin) as [m ->]. destruct c; simpl; eauto.
Qed.

Lemma py_filter_None_nil l :
  py_filter_None l = [] ↔ Forall (λ c, c = None ∨ c = Some 0) l.
Proof.
  unfold py_filter_None. induction l as [|c l IH]; simpl.
  { split; [constructor|done]. }
  rewrite Forall_cons, <- IH. destruct c as [n|]; simpl.
  - case_decide; subst; simpl.
    + split; [intros Hl; auto | by intros [_ Hl]].
    + split; [done|]. intros [[|[=]] _]; done.
  - split; [intros Hl; auto | by intros [_ Hl]].
Qed.

Lemma py_filter_None_elem l n : n ∈ py_filter_None l ↔ Some n ∈ l ∧ n ≠ 0.
Proof.
  unfold py_filter_None. rewrite list_elem_of_omap. split.
  - intros ([m|] & Hin & Ht); simpl in Ht; [|done].
    case_decide; [done|]. by injection Ht as ->.
  - intros [Hin Hn]. exists (Some n). split; [done|]. simpl.
    by rewrite decide_False.
Qed.

(** A row has no height exactly when none of its cells has a height other
    than [None] or [0]. *)
Lemma row_height_of_None l :
  row_height_of l = None ↔ Forall (λ c, c = None ∨ c = Some 0) l.
Proof.
  rewrite <- py_filter_None_nil. unfold row_height_of.
  destruct (py_filter_None l) as [|n ns] eqn:Hf; [done|].
  split; [|done]. intros Hmax.
  assert (n ∈ py_filter_None l) as [Hin _]%py_filter_None_elem
    by (rewrite Hf; left).
  destruct (py_max_is_Some _ _ Hin) as [m Hm]. congruence.
Qed.



Lemma truthy_idem c : truthy (truthy c) = truthy c.
Proof.
  destruct c as [n|]; simpl; [|done].
  case_decide; simpl; [done|]. by rewrite decide_False.
Qed.

Lemma py_filter_None_truthy l :
  py_filter_None (truthy <$> l) = py_filter_None l.
Proof.
  unfold py_filter_None. induction l as [|c l IH]; csimpl; [done|].
  by rewrite truthy_idem, IH.
Qed.

Lemma py_max_ge l n : Some n ∈ l → ∃ m, py_max l = Some m ∧ n ≤ m.
Proof.
  induction l as [|c l IH]; [by intros ?%elem_of_nil|].
  rewrite elem_of_cons. simpl. intros [<-|Hin].
  - destruct (py_max l) as [m|]; simpl; eexists; split; try done; lia.
  - destruct (IH Hin) as (m & -> & Hle).
    destruct c as [x|]; simpl; eexists; split; try done; lia.
Qed.

Lemma py_max_nonneg l : Forall nonneg_size l → nonneg_size (py_max l).
Proof.
  induction 1 as [|c l Hc _ IH]; simpl; [by intros n|].
  destruct c as [x|], (py_max l) as [m|]; simpl; try done.
  intros n [= <-]. specialize (Hc x eq_refl). lia.
Qed.

(** For sizes that are not negative, [max] does not tell [0] from [None],
    up to [0] against [None] as the result. *)
Lemma py_max_truthy l :
  Forall nonneg_size l → py_max (truthy <$> l) = truthy (py_max l).
Proof.
  induction 1 as [|c l Hc Hl IH]; csimpl; [done|].
  rewrite IH. pose proof (py_max_nonneg _ Hl) as Hm.
  destruct c as [x|], (py_max l) as [m|]; simpl; try done.
  - specialize (Hc x eq_refl). specialize (Hm m eq_refl).
    repeat case_decide; simpl; try done; f_equal; lia.
  - by case_decide.
Qed.

(** C10, as amended.  Row-height pass: for cell heights that are not
    negative, a cell of height [0] counts as a cell of unknown height (the
    row's height is the same with every [0] replaced by [None]), and a row
    has height [None], and so is an auto row, exactly when each of its
    cells has height [None] or [0].  Both passes: a size [0] adds nothing
    to the sum of the known sizes.  Column-width pass: a cell of width [0]
    is not an auto cell, it keeps width [0] whatever space is left. *)
Theorem zero_size_cells (item_heights item_widths : list (option Z)) D i :
  Forall nonneg_size item_heights →
  item_widths !! i = Some (Some 0) →
  row_height_of (truthy <$> item_heights) = row_height_of item_heights ∧
  (row_height_of item_heights = None ↔
   Forall (λ c, c = None ∨ c = Some 0) item_heights) ∧
  py_sum (py_filter_None (truthy <$> item_widths)) =
    py_sum (py_filter_None item_widths) ∧
  redistribute D item_widths !! i = Some (Some 0).
Proof.
  intros Hnn Hi. split; [|split; [|split]].
  - unfold row_height_of. rewrite py_filter_None_truthy.
    destruct (py_filter_None item_heights) as [|n ns] eqn:Hf; [done|].
    assert (n ∈ py_filter_None item_heights) as [Hin Hn0]%py_filter_None_elem
      by (rewrite Hf; left).
    rewrite py_max_truthy by done.
    destruct (py_max_ge _ _ Hin) as (m & -> & Hle). simpl.
    rewrite Forall_forall in Hnn. specialize (Hnn _ Hin n eq_refl).
    rewrite decide_False; [done|lia].
  - apply row_height_of_None.
  - by rewrite py_filter_None_truthy.
  - by apply redistribute_known.
Qed.

End Layout.

Section LayoutRuns.


(** C10 on the cell heights [0, 5, None] and the cell widths [0, None] on
    a display of width 100. *)
Lemma zero_size_cells_witness :
  (Forall nonneg_size [Some 0; Some 5; None] ∧
   [Some 0; None] !! O = Some (Some 0)) ∧
  row_height_of (truthy <$> [Some 0; Some 5; None]) =
    row_height_of [Some 0; Some 5; None] ∧
  redistribute 100 [Some 0; None] !! O = Some (Some 0).
Proof.
  assert (Forall nonneg_size [Some 0; Some 5; None]) as H1.
  { repeat constructor; intros n [= <-]; lia. }
  assert ([Some 0; None] !! O = Some (Some 0)) as H2 by reflexivity.
  split; [done|].
  destruct (zero_size_cells [Some 0; Some 5; None] [Some 0; None] 100 O H1 H2)
    as (Ha & _ & _ & Hd).
  done.
Defined.

End LayoutRuns.

(** ** ZoneManager: what a method keeps *)

Section Keeps.

Context {W : Type}.

(** A relation between the machine before, the machine after and the
    events in between, that holds when nothing happens and composes. *)
Variable R : Machine W → Machine W → list event → Prop.
Hypothesis R_refl : ∀ st, R st st [].
Hypothesis R_trans :
  ∀ a b c e1 e2, R a b e1 → R b c e2 → R a c (e1 ++ e2).

Lemma keeps_ret {A} (a : A) : keeps R (mret a).
Proof. intros st. apply R_refl. Qed.

Lemma keeps_raise {A} (x : exn) : keeps R (@raise W A x).
Proof. intros st. apply R_refl. Qed.

Lemma keeps_gets {A} (f : ZoneManager W → A) : keeps R (gets f).
Proof. intros st. apply R_refl. Qed.

Lemma keeps_bind {A B} (m : M W A) (f : A → M W B) :
  keeps R m → (∀ a, keeps R (f a)) → keeps R (m ≫= f).
Proof.
  intros Hm Hf st. run_M. specialize (Hm st).
  destruct (m st) as [[[a|x] st1] e1]; simpl in *; [|done].
  specialize (Hf a st1). destruct (f a st1) as [[r st2] e2]; simpl in *.
  by eapply R_trans.
Qed.

Lemma keeps_for_each {A} (f : A → M W unit) (l : list A) :
  (∀ a, keeps R (f a)) → keeps R (for_each f l).
Proof.
  intros Hf. induction l as [|a l IH]; simpl.
  - apply keeps_ret.
  - apply keeps_bind; [apply Hf | intros _; apply IH].
Qed.

Lemma keeps_map_each {A B} (f : A → M W B) (l : list A) :
  (∀ a, keeps R (f a)) → keeps R (map_each f l).
Proof.
  intros Hf. induction l as [|a l IH]; simpl.
  - apply keeps_ret.
  - apply keeps_bind; [apply Hf | intros b].
    apply keeps_bind; [apply IH | intros bs; apply keeps_ret].
Qed.

Lemma keeps_flag_of k : keeps R (flag_of k).
Proof.
  apply keeps_bind; [apply keeps_gets | intros flags].
  destruct (flags !! k); [apply keeps_ret | apply keeps_raise].
Qed.

Lemma keeps_py_index {A} (l : list A) i : keeps R (py_index l i).
Proof. unfold py_index. destruct (l !! i); [apply keeps_ret | apply keeps_raise]. Qed.

Lemma keeps_py_iadd x width : keeps R (py_iadd x width).
Proof. destruct width; [apply keeps_ret | apply keeps_raise]. Qed.

Lemma keeps_get_element_height element : keeps R (get_element_height element).
Proof.
  apply keeps_bind; [apply keeps_gets | intros zs].
  destruct element as [s|v|v]; try apply keeps_ret.
  destruct (zs !! s) as [zone|]; [|apply keeps_ret].
  destruct (get_image zone); [apply keeps_ret | apply keeps_raise].
Qed.

Lemma keeps_get_element_width element : keeps R (get_element_width element).
Proof.
  apply keeps_bind; [apply keeps_gets | intros zs].
  destruct element as [s|v|v]; try apply keeps_ret.
  destruct (zs !! s) as [zone|]; [|apply keeps_ret].
  destruct (get_image zone); [apply keeps_ret | apply keeps_raise].
Qed.

End Keeps.

(** Goals [keeps R m] for an [m] made of the operations above, with the two
    facts on [R] among the hypotheses; [tac] closes the goals on the
    operations that are particular to a loop. *)
Ltac keeps_with tac :=
  repeat first
    [ assumption
    | tac
    | apply keeps_ret; assumption
    | apply keeps_raise; assumption
    | apply keeps_gets; assumption
    | apply keeps_py_index; assumption
    | apply keeps_py_iadd; assumption
    | apply keeps_flag_of; assumption
    | apply keeps_get_element_height; assumption
    | apply keeps_get_element_width; assumption
    | apply keeps_bind; [assumption| |intros ?]
    | apply keeps_for_each; [assumption|assumption|intros ?]
    | apply keeps_map_each; [assumption|assumption|intros ?] ].

(** ** ZoneManager: the first loop of [show] *)

Section FirstLoop.

Context {W : Type}.
Implicit Types (st : Machine W).

Lemma first_loop_refl st : first_loop_rel st st [].
Proof.
  split; [by left|]. split; [done|]. split; [done|].
  intros img x y. apply not_elem_of_nil.
Qed.

Lemma first_loop_trans st1 st2 st3 e1 e2 :
  first_loop_rel st1 st2 e1 → first_loop_rel st2 st3 e2 →
  first_loop_rel st1 st3 (e1 ++ e2).
Proof.
  intros (Hf1 & Hz1 & Hm1 & Hp1) (Hf2 & Hz2 & Hm2 & Hp2).
  split; [|split; [|split]].
  - intros k. destruct (Hf2 k) as [Heq|[Ht Hs]].
    + rewrite Heq. apply Hf1.
    + right. split; [done|].
      destruct (Hf1 k) as [Heq1|[_ Hs1]]; [by rewrite <- Heq1|done].
  - intros k. by rewrite Hz2, Hz1.
  - congruence.
  - intros img x y [Hin|Hin]%elem_of_app; [by eapply Hp1|by eapply Hp2].
Qed.

Lemma keeps_first_refresh_item item : keeps (W:=W) first_loop_rel (refresh_item item).
Proof.
  intros st. unfold refresh_item, call_refresh, flag_of. run_M.
  destruct item as [s|v|v]; simpl; try apply first_loop_refl.
  destruct (zones (zm st) !! s) as [zone|] eqn:Hs; simpl.
  - assert (∀ k, is_Some (<[s:=zone_after (refresh zone (world st))]>
                            (zones (zm st)) !! k) ↔
                 is_Some (zones (zm st) !! k)) as Hdom.
    { intros k. destruct (decide (s = k)) as [<-|Hne].
      - rewrite lookup_insert_eq, Hs. split; eauto.
      - by rewrite lookup_insert_ne. }
    assert (∀ img x y,
              CanvasPaste img x y ∉ emitted (refresh zone (world st)) ++ [])
      as Hnp.
    { intros img x y. rewrite app_nil_r. unfold refresh, needs_refresh.
      destruct (value_cb zone (value_cb_self zone) (world st)) as [nv w1].
      case_decide; simpl; [|apply not_elem_of_nil].
      unfold update_image; simpl.
      destruct (if caching (attrs zone)
                then cache (attrs zone) !! nv else None); simpl.
      - rewrite elem_of_cons, elem_of_nil. by intros [|[]].
      - destruct (image_cb zone nv _ w1); simpl.
        rewrite !elem_of_cons, elem_of_nil. by intros [|[|[]]]. }
    destruct (returned (refresh zone (world st))); simpl.
    + destruct (zones_that_need_refresh (zm st) !! s) as [[|]|] eqn:Hflag;
        simpl.
      * split; [by left|]. split; [done|]. split; [done|].
        intros img x y. specialize (Hnp img x y).
        by rewrite !app_nil_r in *.
      * split; [|split; [done|]; split; [done|]].
        -- intros k. unfold flags_of; simpl.
           destruct (decide (s = k)) as [<-|Hne].
           ++ right. rewrite lookup_insert_eq, Hflag. eauto.
           ++ left. by rewrite lookup_insert_ne.
        -- intros img x y. specialize (Hnp img x y).
           by rewrite !app_nil_r in *.
      * split; [by left|]. split; [done|]. split; [done|].
        intros img x y. specialize (Hnp img x y).
        by rewrite !app_nil_r in *.
    + split; [by left|]. split; [done|]. split; [done|]. done.
  - destruct (all_dots s); simpl; [apply first_loop_refl|].
    split; [by left|]. split; [done|]. split; [done|].
    intros img x y. rewrite elem_of_cons, elem_of_nil. by intros [|[]].
Qed.

(** A string cell that is not a key of the zones: a warning unless the
    string is made of dots only; nothing else happens. *)
Lemma refresh_item_unknown s st :
  zones (zm st) !! s = None →
  refresh_item (Str s) st =
    (Ret tt, st, if all_dots s then [] else [LogWarning s]).
Proof.
  intros Hs. unfold refresh_item. run_M. rewrite Hs.
  by destruct (all_dots s).
Qed.

Lemma keeps_first_measure_rows rows :
  keeps (W:=W) first_loop_rel (measure_rows rows).
Proof.
  pose proof first_loop_refl as Hr. pose proof first_loop_trans as Ht.
  induction rows as [|row rest IH]; simpl;
    keeps_with ltac:(apply keeps_first_refresh_item).
Qed.

End FirstLoop.

(** ** ZoneManager: the second loop of [show] *)

Section SecondLoop.

Context {W : Type}.
Implicit Types (st : Machine W).

Lemma pasted_in_app_l (e1 e2 : list event) (zone : Zone W) :
  pasted_in e1 zone → pasted_in (e1 ++ e2) zone.
Proof. intros (x & y & Hin). exists x, y. apply elem_of_app. by left. Qed.

Lemma pasted_in_app_r (e1 e2 : list event) (zone : Zone W) :
  pasted_in e2 zone → pasted_in (e1 ++ e2) zone.
Proof. intros (x & y & Hin). exists x, y. apply elem_of_app. by right. Qed.

Lemma second_loop_refl st : second_loop_rel st st [].
Proof.
  split; [done|]. split; [by left|].
  intros img x y Hin. by apply elem_of_nil in Hin.
Qed.

Lemma second_loop_trans st1 st2 st3 e1 e2 :
  second_loop_rel st1 st2 e1 → second_loop_rel st2 st3 e2 →
  second_loop_rel st1 st3 (e1 ++ e2).
Proof.
  intros (Hz1 & Hf1 & Hp1) (Hz2 & Hf2 & Hp2).
  split; [congruence|]. split.
  - intros k. destruct (Hf2 k) as [Heq2|(Ht2 & Hc2 & zone & Hzone & Hp)].
    + rewrite Heq2. destruct (Hf1 k) as [Heq1|(Ht1 & Hc1 & zone & Hzone & Hp)].
      * by left.
      * right. split; [done|]. split; [done|].
        exists zone. split; [done|]. by apply pasted_in_app_l.
    + destruct (Hf1 k) as [Heq1|(Ht1 & Hc1 & _)]; [|congruence].
      right. split; [congruence|]. split; [done|].
      exists zone. split; [congruence|]. by apply pasted_in_app_r.
  - intros img x y [Hin|Hin]%elem_of_app.
    + destruct (Hp1 _ _ _ Hin) as (k & zone & Hzone & Himg & Hflag).
      exists k, zone. split; [done|]. split; [done|].
      destruct (Hf2 k) as [Heq2|(Ht2 & _)]; congruence.
    + destruct (Hp2 _ _ _ Hin) as (k & zone & Hzone & Himg & Hflag).
      exists k, zone. split; [congruence|]. done.
Qed.

Lemma zone_of_Some (zs : gmap string (Zone W)) item s zone :
  zone_of zs item = Some (s, zone) ↔ item = Str s ∧ zs !! s = Some zone.
Proof.
  destruct item as [s'|v|v]; simpl; [|by split; [|intros [? _]]..].
  destruct (zs !! s') as [zone'|] eqn:Hs; simpl.
  - split; [by intros [= -> ->]|]. intros [[= ->] Heq]. congruence.
  - split; [done|]. intros [[= ->] Heq]. congruence.
Qed.

(** One cell of the second loop, run on a machine. *)
Lemma draw_item_run item_widths y i x item st :
  draw_item item_widths y i x item st =
    match item_widths !! i with
    | None => (Raise IndexError, st, [])
    | Some width =>
        match zone_of (zones (zm st)) item with
        | None =>
            (match width with Some n => Ret (x + n) | None => Raise TypeError end,
             st, [])
        | Some (s, zone) =>
            match flags_of st !! s with
            | None => (Raise KeyError, st, [])
            | Some true =>
                (match width with Some n => Ret (x + n) | None => Raise TypeError end,
                 {| zm := set_flag s false (zm st); world := world st |},
                 [CanvasPaste (get_image zone) x y])
            | Some false =>
                (match width with Some n => Ret (x + n) | None => Raise TypeError end,
                 st, [])
            end
        end
    end.
Proof.
  unfold draw_item, py_index, flag_of, py_iadd, flags_of. run_M.
  destruct (item_widths !! i) as [width|]; simpl; [|done].
  destruct (zone_of (zones (zm st)) item) as [[s zone]|]; simpl.
  - destruct (zones_that_need_refresh (zm st) !! s) as [[|]|]; simpl;
      [| |done]; by destruct width.
  - by destruct width.
Qed.

Lemma keeps_second_draw_item item_widths y i x item :
  keeps (W:=W) second_loop_rel (draw_item item_widths y i x item).
Proof.
  intros st. rewrite draw_item_run.
  destruct (item_widths !! i) as [width|]; simpl; [|apply second_loop_refl].
  destruct (zone_of (zones (zm st)) item) as [[s zone]|] eqn:Hzone; simpl;
    [|apply second_loop_refl].
  apply zone_of_Some in Hzone as [-> Hs].
  destruct (flags_of st !! s) as [[|]|] eqn:Hflag; simpl;
    try apply second_loop_refl.
  split; [done|]. split.
  - intros k. unfold flags_of in *; simpl.
    destruct (decide (s = k)) as [<-|Hne].
    + right. rewrite lookup_insert_eq. split; [done|]. split; [done|].
      exists zone. split; [done|]. exists x, y. left.
    + left. by rewrite lookup_insert_ne.
  - intros img x' y' [[= -> -> ->]|[]%elem_of_nil]%elem_of_cons.
    exists s, zone. split; [done|]. split; [done|].
    unfold flags_of; simpl. apply lookup_insert_eq.
Qed.

Lemma keeps_second_draw_items item_widths y i x items :
  keeps (W:=W) second_loop_rel (draw_items item_widths y i x items).
Proof.
  pose proof second_loop_refl as Hr. pose proof second_loop_trans as Ht.
  revert i x. induction items as [|item rest IH]; intros i x; simpl;
    keeps_with ltac:(apply keeps_second_draw_item || apply IH).
Qed.

Lemma keeps_second_draw_row row_heights i y row :
  keeps (W:=W) second_loop_rel (draw_row row_heights i y row).
Proof.
  pose proof second_loop_refl as Hr. pose proof second_loop_trans as Ht.
  unfold draw_row.
  keeps_with ltac:(apply keeps_second_draw_items).
Qed.

Lemma keeps_second_draw_rows row_heights i y rows :
  keeps (W:=W) second_loop_rel (draw_rows row_heights i y rows).
Proof.
  pose proof second_loop_refl as Hr. pose proof second_loop_trans as Ht.
  revert i y. induction rows as [|row rest IH]; intros i y; simpl;
    keeps_with ltac:(apply keeps_second_draw_row || apply IH).
Qed.

End SecondLoop.

(** ** ZoneManager: what [show] paints *)

Section Paints.

Context {W : Type}.
Implicit Types (st : Machine W).

Lemma idle_refl st : idle st st [].
Proof. done. Qed.

Lemma idle_trans st1 st2 st3 e1 e2 :
  idle st1 st2 e1 → idle st2 st3 e2 → idle st1 st3 (e1 ++ e2).
Proof. by intros [-> ->] [-> ->]. Qed.







(** A row whose height is still [None] after the redistribution: the body
    of the second loop does not end normally. *)
Lemma draw_row_unresolved_raises row_heights i y row st a :
  row_heights !! i = Some None →
  (draw_row row_heights i y row st).1.1 ≠ Ret a.
Proof.
  intros Hi. unfold draw_row, py_index. run_M. rewrite Hi; simpl.
  destruct (map_each get_element_width row st) as [[[ws|e] st0] e0];
    simpl; [|done].
  by destruct (draw_items (redistribute (o_width (zm st0)) ws) y O 0 row st0)
    as [[[x1|e] st1] e1].
Qed.


(** The row heights that the first loop of [show] hands to the
    redistribution: one per row of the markup, each the [row_height_of] of
    the heights measured for the cells of that row. *)
Lemma measure_rows_row_heights rows st row_heights :
  (measure_rows rows st).1.1 = Ret row_heights →
  ∃ heights : list (list (option Z)),
    row_heights = row_height_of <$> heights ∧
    Forall2 (λ row item_heights, length item_heights = length row)
            rows heights.
Proof.
  revert st row_heights.
  induction rows as [|row rest IH]; intros st row_heights; simpl.
  { intros [= <-]. by exists []. }
  run_M.
  destruct (for_each refresh_item row st) as [[[[]|e] st1] e1]; simpl;
    [|done].
  assert (∀ st' hs, (map_each get_element_height row st').1.1 = Ret hs →
                    length hs = length row) as Hlen.
  { clear. induction row as [|c row IHrow]; intros st' hs; simpl.
    { by intros [= <-]. }
    run_M.
    destruct (get_element_height c st') as [[[h|e] st2] e2]; simpl; [|done].
    specialize (IHrow st2).
    destruct (map_each get_element_height row st2) as [[[hs'|e] st3] e3];
      simpl in *; [|done].
    intros [= <-]. simpl. f_equal. by apply IHrow. }
  specialize (Hlen st1).
  destruct (map_each get_element_height row st1) as [[[hs|e] st2] e2];
    simpl in *; [|done].
  specialize (IH st2).
  destruct (measure_rows rest st2) as [[[hs'|e] st3] e3]; simpl in *; [|done].
  intros [= <-]. destruct (IH hs' eq_refl) as (heights & -> & Hall).
  exists (hs :: heights). split; [done|]. constructor; [|done]. by apply Hlen.
Qed.

(** [show], run on a machine: the first loop, then the second, then the
    display. *)
Lemma show_run st :
  show st =
    match measure_rows (markup (zm st)) st with
    | (Raise e, st1, e1) => (Raise e, st1, e1)
    | (Ret row_heights, st1, e1) =>
        match draw_rows (redistribute (o_height (zm st1)) row_heights)
                        O 0 (markup (zm st)) st1 with
        | (Raise e, st2, e2) => (Raise e, st2, e1 ++ e2)
        | (Ret _, st2, e2) => (Ret tt, st2, e1 ++ e2 ++ [CanvasDisplay])
        end
    end.
Proof.
  unfold show. run_M.
  destruct (measure_rows (markup (zm st)) st) as [[[hs|e] st1] e1]; [|done].
  simpl.
  by destruct (draw_rows (redistribute (o_height (zm st1)) hs) O 0
                         (markup (zm st)) st1) as [[[y|e] st2] e2].
Qed.

End Paints.

(** ** ZoneManager: construction, dirty flags, the first frame *)

Section ManagerClaims.

Context {W : Type}.
Implicit Types (st : Machine W).

Lemma for_each_cons_run {A} (f : A → M W unit) a l st :
  for_each f (a :: l) st =
    match f a st with
    | (Ret _, st1, e1) =>
        match for_each f l st1 with
        | (r, st2, e2) => (r, st2, e1 ++ e2)
        end
    | (Raise x, st1, e1) => (Raise x, st1, e1)
    end.
Proof. reflexivity. Qed.

Lemma refresh_and_flag_run (item : string * Zone W) st :
  refresh_and_flag item st =
    (Ret tt,
     {| zm := set_flag item.1 true
                (set_zone item.1
                   (zone_after (refresh item.2 (world st))) (zm st));
        world := world_after (refresh item.2 (world st)) |},
     emitted (refresh item.2 (world st))).
Proof. unfold refresh_and_flag, call_refresh. run_M. by rewrite app_nil_r. Qed.

(** The loop of [refresh_on_start] over the items of the dict: it ends
    without an exception, every zone of the list is replaced by its
    refreshed self, and its flag is set. *)
Lemma refresh_all_run (items : list (string * Zone W)) st :
  NoDup items.*1 →
  (for_each refresh_and_flag items st).1.1 = Ret tt ∧
  (∀ k, k ∉ items.*1 →
        flags_of (for_each refresh_and_flag items st).1.2 !! k =
          flags_of st !! k ∧
        zones (zm (for_each refresh_and_flag items st).1.2) !! k =
          zones (zm st) !! k) ∧
  (∀ k z, (k, z) ∈ items →
          flags_of (for_each refresh_and_flag items st).1.2 !! k = Some true ∧
          ∃ w', zones (zm (for_each refresh_and_flag items st).1.2) !! k =
                  Some (zone_after (refresh z w'))).
Proof.
  revert st. induction items as [|[k0 z0] rest IH]; intros st Hnd.
  { simpl. split; [done|]. split; [done|]. by intros k z ?%elem_of_nil. }
  rewrite fmap_cons in Hnd. apply NoDup_cons in Hnd as [Hk0 Hnd].
  rewrite for_each_cons_run, refresh_and_flag_run, fmap_cons. simpl.
  set (d := refresh z0 (world st)).
  set (st1 := {| zm := set_flag k0 true (set_zone k0 (zone_after d) (zm st));
                 world := world_after d |}).
  destruct (IH st1 Hnd) as (Hret & Hout & Hin).
  destruct (for_each refresh_and_flag rest st1) as [[r st2] e2]; simpl in *.
  split; [done|]. split.
  - intros k [Hne Hk]%not_elem_of_cons.
    destruct (Hout k Hk) as [-> ->]. unfold flags_of, st1; simpl.
    by rewrite !lookup_insert_ne.
  - intros k z [[= -> ->]|Hkz]%elem_of_cons; [|by apply Hin].
    destruct (Hout k0 Hk0) as [-> ->]. unfold flags_of, st1; simpl.
    rewrite !lookup_insert_eq. split; [done|]. by exists (world st).
Qed.




(** C5.  A flag that is set when [show] starts is, when [show] ends or
    raises, either still set, or cleared with the zone's image pasted on
    the canvas in between; and whatever [show] pastes is the image of a
    zone whose flag is cleared by then. *)
Theorem dirty_flag_sticky st k :
  flags_of st !! k = Some true →
  (flags_of (show st).1.2 !! k = Some true ∨
   flags_of (show st).1.2 !! k = Some false ∧
   ∃ zone, zones (zm (show st).1.2) !! k = Some zone ∧
           pasted_in (show st).2 zone) ∧
  (∀ img x y, CanvasPaste img x y ∈ (show st).2 →
     ∃ k' zone, zones (zm (show st).1.2) !! k' = Some zone ∧
                get_image zone = img ∧
                flags_of (show st).1.2 !! k' = Some false).
Proof.
  intros Hflag. rewrite show_run.
  pose proof (keeps_first_measure_rows (markup (zm st)) st) as Hfirst.
  destruct (measure_rows (markup (zm st)) st) as [[[hs|e] st1] e1];
    simpl in *; destruct Hfirst as (Hf1 & Hz1 & Hm1 & Hnp1).
  2:{ split; [|intros img x y Hin; by destruct (Hnp1 img x y)].
      left. destruct (Hf1 k) as [Heq|[Ht _]]; congruence. }
  assert (flags_of st1 !! k = Some true) as Hflag1
    by (destruct (Hf1 k) as [Heq|[Ht _]]; congruence).
  pose proof (keeps_second_draw_rows (redistribute (o_height (zm st1)) hs)
                                     O 0 (markup (zm st)) st1) as Hsecond.
  assert (∀ st2 e2 e3,
            second_loop_rel st1 st2 e2 →
            (∀ img x y, CanvasPaste img x y ∉ e3) →
            (flags_of st2 !! k = Some true ∨
             flags_of st2 !! k = Some false ∧
             ∃ zone, zones (zm st2) !! k = Some zone ∧
                     pasted_in (e1 ++ e2 ++ e3) zone) ∧
            (∀ img x y, CanvasPaste img x y ∈ e1 ++ e2 ++ e3 →
               ∃ k' zone, zones (zm st2) !! k' = Some zone ∧
                          get_image zone = img ∧
                          flags_of st2 !! k' = Some false)) as Hboth.
  { intros st2 e2 e3 (Hz2 & Hf2 & Hp2) Hnp3. split.
    - destruct (Hf2 k) as [Heq|(_ & Hc & zone & Hzone & Hp)].
      + left. congruence.
      + right. split; [done|]. exists zone. split; [congruence|].
        by apply pasted_in_app_r, pasted_in_app_l.
    - intros img x y [Hin|[Hin|Hin]%elem_of_app]%elem_of_app.
      + by destruct (Hnp1 img x y).
      + destruct (Hp2 _ _ _ Hin) as (k' & zone & Hzone & Himg & Hc).
        exists k', zone. split; [congruence|done].
      + by destruct (Hnp3 img x y). }
  destruct (draw_rows (redistribute (o_height (zm st1)) hs) O 0
                      (markup (zm st)) st1) as [[[y|e] st2] e2]; simpl in *.
  - apply Hboth; [done|]. intros img x' y'.
    rewrite elem_of_cons, elem_of_nil. by intros [|[]].
  - rewrite <- (app_nil_r e2). apply Hboth; [done|].
    intros img x' y'. apply not_elem_of_nil.
Qed.


End ManagerClaims.

(** ** ZoneManager: the claims on concrete managers *)

Section ManagerRuns.

Import Sample.

(** C3, the failing input.  On a display of height 64, a fixed row of
    height 64 and then a filler row: no space is left, the filler row keeps
    the height [None], and [show] raises [TypeError] at [y += row_height];
    nothing reaches the canvas. *)
Theorem show_raises_without_leftover :
  redistribute 64 [Some 64; None] = [Some 64; None] ∧
  observe (show full_then_filler) = (Raise TypeError, [], []).
Proof. split; vm_compute; reflexivity. Qed.

(** C8, the failing input.  With room for the row, the unknown key is
    warned about, the filler is not, and [show] ends with the display.
    Below a fixed row that fills the display, the warning is logged and
    then [show] raises [TypeError]. *)
Theorem show_raises_on_unknown_key_without_leftover :
  observe (show unknown_with_room) =
    (Ret tt, [], [LogWarning "ZZZ"; CanvasDisplay]) ∧
  observe (show full_then_unknown) =
    (Raise TypeError, [], [LogWarning "ZZZ"]).
Proof. split; vm_compute; reflexivity. Qed.


(** C10, counterexample.  On a display of width 110, a row of a first
    cell, the zone ["a"] (width 10) and a filler.  With a spacer of width 0
    as the first cell the zone is pasted at x = 0: the spacer is not an
    auto cell and the filler takes all 100 left.  With a cell of unknown
    width as the first cell the zone is pasted at x = 50. *)
Lemma zero_width_cell_gets_no_share :
  (show zero_spacer_first).2 =
    [CanvasPaste (Some (icon 0 10 10)) 0 0; CanvasDisplay] ∧
  (show filler_first).2 =
    [CanvasPaste (Some (icon 0 10 10)) 50 0; CanvasDisplay] ∧
  redistribute 110 [Some 0; Some 10; None] = [Some 0; Some 10; Some 100] ∧
  redistribute 110 [None; Some 10; None] = [Some 50; Some 10; Some 50].
Proof. repeat split; vm_compute; reflexivity. Qed.

(** C5 on the manager with the zone ["a"] in two cells, just built. *)
Lemma dirty_flag_sticky_witness :
  flags_of same_zone_twice !! "a" = Some true ∧
  (flags_of (show same_zone_twice).1.2 !! "a" = Some true ∨
   flags_of (show same_zone_twice).1.2 !! "a" = Some false ∧
   ∃ zone, zones (zm (show same_zone_twice).1.2) !! "a" = Some zone ∧
           pasted_in (show same_zone_twice).2 zone).
Proof.
  assert (flags_of same_zone_twice !! "a" = Some true) as H1
    by (vm_compute; reflexivity).
  split; [done|].
  exact (proj1 (dirty_flag_sticky same_zone_twice "a" H1)).
Defined.


End ManagerRuns.

(** * Further properties of the code *)

(** ** ZoneManager: what [show] keeps as a whole *)

Section ShowKeeps.

Context {W : Type}.
Implicit Types (st : Machine W) (z : Zone W).

(** A refresh only logs the new value and calls the image callback. *)
Lemma refresh_events z w ev :
  ev ∈ emitted (refresh z w) →
  (∃ n v, ev = LogDebug n v) ∨ (∃ v img, ev = ImageCbCalled v img).
Proof.
  unfold refresh.
  destruct (decide (new_value_of z w = value (attrs z))) as [Heq|Hne].
  { rewrite (needs_refresh_same _ _ Heq); simpl. by intros ?%elem_of_nil. }
  rewrite (needs_refresh_changed _ _ Hne); simpl.
  unfold update_image.
  destruct (if caching _ then _ else None); simpl.
  - rewrite elem_of_cons, elem_of_nil. intros [->|[]]. left. eauto.
  - destruct (image_cb _ _ _ _); simpl.
    rewrite !elem_of_cons, elem_of_nil. intros [->|[->|[]]]; [left|right]; eauto.
Qed.

(** A zone that has an image has one after a refresh. *)
Lemma refresh_image_persists z w :
  is_Some (get_image z) → is_Some (get_image (zone_after (refresh z w))).
Proof.
  intros Himg. unfold refresh.
  destruct (returned (needs_refresh z w)) eqn:Hr; simpl; [eauto|].
  destruct (decide (new_value_of z w = value (attrs z))) as [Heq|Hne].
  - by rewrite (needs_refresh_same _ _ Heq).
  - by rewrite (needs_refresh_changed _ _ Hne) in Hr.
Qed.

Lemma show_rel_refl st : show_rel st st [].
Proof.
  do 5 (split; [done|]). split; [eauto|].
  split; [by intros s ?%elem_of_nil|]. apply not_elem_of_nil.
Qed.

Lemma show_rel_trans st1 st2 st3 e1 e2 :
  show_rel st1 st2 e1 → show_rel st2 st3 e2 → show_rel st1 st3 (e1 ++ e2).
Proof.
  intros (Hz1 & Hf1 & Hm1 & Hw1 & Hh1 & Hi1 & Hl1 & Hd1)
         (Hz2 & Hf2 & Hm2 & Hw2 & Hh2 & Hi2 & Hl2 & Hd2).
  split; [intros k; by rewrite Hz2, Hz1|].
  split; [intros k; by rewrite Hf2, Hf1|].
  split; [congruence|]. split; [congruence|]. split; [congruence|].
  split; [|split].
  - intros k z Hk Himg. destruct (Hi1 k z Hk Himg) as (z' & Hk' & Himg').
    by apply (Hi2 k z').
  - intros s [Hin|Hin]%elem_of_app; [by apply Hl1|].
    destruct (Hl2 s Hin) as [Hdots Hnone]. split; [done|].
    apply eq_None_not_Some. rewrite <- Hz1. by rewrite Hnone.
  - by intros [Hin|Hin]%elem_of_app.
Qed.

Lemma keeps_show_refresh_item item :
  keeps (W:=W) show_rel (refresh_item item).
Proof.
  intros st.
  destruct item as [s|v|v]; try apply show_rel_refl.
  destruct (zones (zm st) !! s) as [zone|] eqn:Hs.
  2:{ rewrite (refresh_item_unknown _ _ Hs); simpl.
      destruct (all_dots s) eqn:Hdots; [apply show_rel_refl|].
      do 5 (split; [done|]). split; [eauto|].
      split; [by intros s' [= ->]%list_elem_of_singleton|].
      by intros [=]%list_elem_of_singleton. }
  unfold refresh_item, call_refresh, flag_of. run_M. rewrite Hs; simpl.
  set (d := refresh zone (world st)).
  assert (∀ k, is_Some (<[s:=zone_after d]> (zones (zm st)) !! k) ↔
               is_Some (zones (zm st) !! k)) as Hdom.
  { intros k. destruct (decide (s = k)) as [<-|Hne].
    - rewrite lookup_insert_eq, Hs. split; eauto.
    - by rewrite lookup_insert_ne. }
  assert (∀ k z, zones (zm st) !! k = Some z → is_Some (get_image z) →
                 ∃ z', <[s:=zone_after d]> (zones (zm st)) !! k = Some z' ∧
                       is_Some (get_image z')) as Himgs.
  { intros k z Hk Himg. destruct (decide (s = k)) as [<-|Hne].
    - rewrite lookup_insert_eq. eexists. split; [done|].
      apply refresh_image_persists. congruence.
    - rewrite lookup_insert_ne by done. eauto. }
  assert (∀ evs, evs = emitted d → 
            (∀ s', LogWarning s' ∈ evs →
                   all_dots s' = false ∧ zones (zm st) !! s' = None) ∧
            CanvasDisplay ∉ evs) as Hevs.
  { intros evs ->. split.
    - intros s' Hin. apply refresh_events in Hin as [(?&?&?)|(?&?&?)]; done.
    - intros Hin. apply refresh_events in Hin as [(?&?&?)|(?&?&?)]; done. }
  assert (∀ k b, is_Some (<[s:=b]> (zones_that_need_refresh (zm st)) !! k) ↔
                 is_Some (zones_that_need_refresh (zm st) !! k) ∨ s = k)
    as Hflagdom.
  { intros k b. destruct (decide (s = k)) as [<-|Hne].
    - rewrite lookup_insert_eq. split; eauto.
    - rewrite lookup_insert_ne by done. split; [eauto|by intros [|]]. }
  destruct (returned d); simpl.
  - destruct (zones_that_need_refresh (zm st) !! s) as [[|]|] eqn:Hflag;
      simpl; rewrite ?app_nil_r;
      (split; [done|]); (split; [|split; [done|]; split; [done|];
         split; [done|]; split; [done|]; by apply Hevs]); try done.
    intros k. unfold flags_of; simpl. rewrite Hflagdom.
    split; [intros [|<-]; [done|by rewrite Hflag]|by left].
  - rewrite ?app_nil_r.
    split; [done|]. split; [done|]. split; [done|]. split; [done|].
    split; [done|]. split; [done|]. by apply Hevs.
Qed.

Lemma keeps_show_draw_item item_widths y i x item :
  keeps (W:=W) show_rel (draw_item item_widths y i x item).
Proof.
  intros st. rewrite draw_item_run.
  destruct (item_widths !! i) as [width|]; simpl; [|apply show_rel_refl].
  destruct (zone_of (zones (zm st)) item) as [[s zone]|] eqn:Hzone; simpl;
    [|apply show_rel_refl].
  destruct (flags_of st !! s) as [[|]|] eqn:Hflag; simpl;
    try apply show_rel_refl.
  split; [done|]. split.
  { intros k. unfold flags_of in *; simpl.
    destruct (decide (s = k)) as [<-|Hne].
    - rewrite lookup_insert_eq, Hflag. split; eauto.
    - by rewrite lookup_insert_ne. }
  split; [done|]. split; [done|]. split; [done|].
  split; [intros k z Hk Himg; eauto|].
  split; [by intros s' [=]%list_elem_of_singleton|].
  by intros [=]%list_elem_of_singleton.
Qed.

Lemma keeps_show_measure_rows rows :
  keeps (W:=W) show_rel (measure_rows rows).
Proof.
  pose proof show_rel_refl as Hr. pose proof show_rel_trans as Ht.
  induction rows as [|row rest IH]; simpl;
    keeps_with ltac:(apply keeps_show_refresh_item).
Qed.

Lemma keeps_show_draw_rows row_heights i y rows :
  keeps (W:=W) show_rel (draw_rows row_heights i y rows).
Proof.
  pose proof show_rel_refl as Hr. pose proof show_rel_trans as Ht.
  assert (∀ ws y i x items,
            keeps (W:=W) show_rel (draw_items ws y i x items)) as Hitems.
  { intros ws y' i' x items. revert i' x.
    induction items as [|item rest IH]; intros i' x; simpl;
      keeps_with ltac:(apply keeps_show_draw_item || apply IH). }
  revert i y. induction rows as [|row rest IH]; intros i y; simpl;
    [keeps_with fail|].
  apply keeps_bind; [done| |intros y1; apply IH].
  unfold draw_row. keeps_with ltac:(apply Hitems).
Qed.

(** [show] as a whole: the two loops keep [show_rel], and the display
    comes last, if at all. *)
Lemma show_keeps st :
  ∃ evs, show_rel st (show st).1.2 evs ∧
         ((show st).1.1 = Ret tt ∧ (show st).2 = evs ++ [CanvasDisplay] ∨
          (∃ x, (show st).1.1 = Raise x) ∧ (show st).2 = evs).
Proof.
  rewrite show_run.
  pose proof (keeps_show_measure_rows (markup (zm st)) st) as H1.
  destruct (measure_rows (markup (zm st)) st) as [[[hs|e] st1] e1];
    simpl in *; [|exists e1; split; [done|]; right; eauto].
  pose proof (keeps_show_draw_rows (redistribute (o_height (zm st1)) hs)
                                   O 0 (markup (zm st)) st1) as H2.
  destruct (draw_rows (redistribute (o_height (zm st1)) hs) O 0
                      (markup (zm st)) st1) as [[[y|e] st2] e2];
    simpl in *; exists (e1 ++ e2);
    (split; [by eapply show_rel_trans|]).
  - left. by rewrite app_assoc.
  - right. eauto.
Qed.

End ShowKeeps.

(** ** ZoneManager: the display, the warnings, the images *)

Section ShowEvents.

Context {W : Type}.
Implicit Types (st : Machine W) (z : Zone W).

Lemma only_events_refl P st : only_events P st st [].
Proof. by intros ev ?%elem_of_nil. Qed.

Lemma only_events_trans P st1 st2 st3 e1 e2 :
  only_events P st1 st2 e1 → only_events P st2 st3 e2 →
  only_events P st1 st3 (e1 ++ e2).
Proof. intros H1 H2 ev [Hin|Hin]%elem_of_app; eauto. Qed.

(** The second loop of [show] only pastes. *)
Lemma draw_rows_only_pastes row_heights i y rows :
  keeps (W:=W) (only_events (λ ev, ∃ img x y, ev = CanvasPaste img x y))
        (draw_rows row_heights i y rows).
Proof.
  set (P := λ ev, ∃ img x y, ev = CanvasPaste img x y).
  pose proof (only_events_refl P) as Hr.
  pose proof (only_events_trans P) as Ht.
  assert (∀ ws y i x item,
            keeps (W:=W) (only_events P) (draw_item ws y i x item)) as Hitem.
  { intros ws y' i' x item st. rewrite draw_item_run.
    destruct (ws !! i') as [width|]; simpl; [|apply Hr].
    destruct (zone_of (zones (zm st)) item) as [[s zone]|]; simpl; [|apply Hr].
    destruct (flags_of st !! s) as [[|]|]; simpl; try apply Hr.
    intros ev ->%list_elem_of_singleton. unfold P. eauto. }
  assert (∀ ws y i x items,
            keeps (W:=W) (only_events P) (draw_items ws y i x items))
    as Hitems.
  { intros ws y' i' x items. revert i' x.
    induction items as [|item rest IH]; intros i' x; simpl;
      keeps_with ltac:(apply Hitem || apply IH). }
  revert i y. induction rows as [|row rest IH]; intros i y; simpl;
    [keeps_with fail|].
  apply keeps_bind; [done| |intros y1; apply IH].
  unfold draw_row. keeps_with ltac:(apply Hitems).
Qed.

(** Measuring the heights of a row changes nothing. *)
Lemma item_heights_idle row st :
  idle st (map_each get_element_height row st).1.2
          (map_each get_element_height row st).2.
Proof.
  pose proof (idle_refl (W:=W)) as Hr. pose proof (idle_trans (W:=W)) as Ht.
  revert st. change (keeps (W:=W) idle (map_each get_element_height row)).
  keeps_with fail.
Qed.

(** A warning of the body of the first loop is about its cell. *)
Lemma refresh_item_warning item st s :
  LogWarning s ∈ (refresh_item item st).2 → item = Str s.
Proof.
  destruct item as [s'|v|v]; try by intros ?%elem_of_nil.
  destruct (zones (zm st) !! s') as [zone|] eqn:Hs.
  - unfold refresh_item, call_refresh, flag_of. run_M. rewrite Hs; simpl.
    assert (LogWarning s ∉ emitted (refresh zone (world st))) as Hno.
    { intros [(?&?&?)|(?&?&?)]%refresh_events; done. }
    destruct (returned (refresh zone (world st))); simpl.
    + destruct (zones_that_need_refresh (zm st) !! s') as [[|]|]; simpl;
        rewrite ?app_nil_r; done.
    + by rewrite app_nil_r.
  - rewrite (refresh_item_unknown _ _ Hs); simpl.
    destruct (all_dots s'); [by intros ?%elem_of_nil|].
    by intros [= ->]%list_elem_of_singleton.
Qed.

Lemma refresh_items_warning row st s :
  LogWarning s ∈ (for_each refresh_item row st).2 → Str s ∈ row.
Proof.
  revert st. induction row as [|item rest IH]; intros st.
  { by intros ?%elem_of_nil. }
  rewrite for_each_cons_run.
  pose proof (refresh_item_warning item st s) as Hhead.
  destruct (refresh_item item st) as [[[[]|e] st1] e1]; simpl in *.
  - specialize (IH st1).
    destruct (for_each refresh_item rest st1) as [[r st2] e2]; simpl in *.
    intros [Hin|Hin]%elem_of_app.
    + rewrite (Hhead Hin). left.
    + right. by apply IH.
  - intros Hin. rewrite (Hhead Hin). left.
Qed.

(** The first loop of [show], one row run on a machine. *)
Lemma measure_rows_cons_run row rest st :
  measure_rows (row :: rest) st =
    match for_each refresh_item row st with
    | (Raise e, st1, e1) => (Raise e, st1, e1)
    | (Ret _, st1, e1) =>
        match map_each get_element_height row st1 with
        | (Raise e, _, _) => (Raise e, st1, e1)
        | (Ret item_heights, _, _) =>
            match measure_rows rest st1 with
            | (Raise e, st2, e2) => (Raise e, st2, e1 ++ e2)
            | (Ret row_heights, st2, e2) =>
                (Ret (row_height_of item_heights :: row_heights), st2,
                 e1 ++ e2)
            end
        end
    end.
Proof.
  simpl. run_M.
  destruct (for_each refresh_item row st) as [[[[]|e] st1] e1]; simpl; [|done].
  pose proof (item_heights_idle row st1) as Hidle.
  destruct (map_each get_element_height row st1) as [[[hs|e] st1'] e1'];
    simpl in *; destruct Hidle as [-> ->]; simpl;
    [|by rewrite app_nil_r].
  destruct (measure_rows rest st1) as [[[hs'|e] st2] e2]; simpl; [|done].
  by rewrite app_nil_r.
Qed.

Lemma measure_rows_warning rows st s :
  LogWarning s ∈ (measure_rows rows st).2 →
  ∃ row, row ∈ rows ∧ Str s ∈ row.
Proof.
  revert st. induction rows as [|row rest IH]; intros st.
  { by intros ?%elem_of_nil. }
  rewrite measure_rows_cons_run.
  pose proof (refresh_items_warning row st s) as Hhead.
  destruct (for_each refresh_item row st) as [[[[]|e] st1] e1]; simpl in *.
  2:{ intros Hin. exists row. split; [left|by apply Hhead]. }
  destruct (map_each get_element_height row st1) as [[[hs|e] ?] ?]; simpl.
  2:{ intros Hin. exists row. split; [left|by apply Hhead]. }
  specialize (IH st1).
  assert (LogWarning s ∈ e1 ++ (measure_rows rest st1).2 →
          ∃ row0, row0 ∈ row :: rest ∧ Str s ∈ row0) as Hboth.
  { intros [Hin|Hin]%elem_of_app.
    - exists row. split; [left|by apply Hhead].
    - destruct (IH Hin) as (row0 & Hrow0 & Hs). exists row0.
      split; [by right|done]. }
  by destruct (measure_rows rest st1) as [[[hs'|e] st2] e2].
Qed.

(** X1.  [show] displays the canvas exactly when it ends without an
    exception, and then once, as the last thing it does; when it raises,
    the canvas is not displayed. *)
Theorem show_displays_last_or_never st :
  (show st).1.1 = Ret tt ∧
  (∃ evs, (show st).2 = evs ++ [CanvasDisplay] ∧ CanvasDisplay ∉ evs) ∨
  (∃ x, (show st).1.1 = Raise x) ∧ CanvasDisplay ∉ (show st).2.
Proof.
  destruct (show_keeps st) as (evs & Hrel & [[Hret Hevs]|[Hraise Hevs]]).
  - left. split; [done|]. exists evs. split; [done|]. apply Hrel.
  - right. split; [done|]. rewrite Hevs. apply Hrel.
Qed.

(** X2.  A warning that [show] logs is about a string that is in a cell of
    the markup, is not a key of the zones and is not made of dots only:
    zone keys and fillers are never warned about. *)
Theorem show_warns_only_unknown_names st s :
  LogWarning s ∈ (show st).2 →
  all_dots s = false ∧ zones (zm st) !! s = None ∧
  ∃ row, row ∈ markup (zm st) ∧ Str s ∈ row.
Proof.
  intros Hin.
  assert (all_dots s = false ∧ zones (zm st) !! s = None) as [Hd Hz].
  { destruct (show_keeps st) as (evs & Hrel & [[_ Hevs]|[_ Hevs]]);
      rewrite Hevs in Hin.
    - apply elem_of_app in Hin as [Hin|[=]%list_elem_of_singleton].
      by apply Hrel.
    - by apply Hrel. }
  split; [done|]. split; [done|].
  revert Hin. rewrite show_run.
  pose proof (measure_rows_warning (markup (zm st)) st s) as Hfirst.
  destruct (measure_rows (markup (zm st)) st) as [[[hs|e] st1] e1];
    simpl in *; [|done].
  pose proof (draw_rows_only_pastes (redistribute (o_height (zm st1)) hs)
                                    O 0 (markup (zm st)) st1) as Hsecond.
  destruct (draw_rows (redistribute (o_height (zm st1)) hs) O 0
                      (markup (zm st)) st1) as [[[y|e] st2] e2]; simpl in *.
  - intros [Hin|[Hin|[=]%list_elem_of_singleton]%elem_of_app]%elem_of_app;
      [by apply Hfirst|].
    by destruct (Hsecond _ Hin) as (?&?&?&?).
  - intros [Hin|Hin]%elem_of_app; [by apply Hfirst|].
    by destruct (Hsecond _ Hin) as (?&?&?&?).
Qed.

End ShowEvents.

Section ShowCompletes.

Context {W : Type}.
Implicit Types (st : Machine W) (z : Zone W).

Lemma show_rel_unknown st st' evs s :
  show_rel st st' evs →
  zones (zm st) !! s = None → zones (zm st') !! s = None.
Proof.
  intros (Hz & _) Hs. apply eq_None_not_Some. rewrite Hz. by rewrite Hs.
Qed.

(** The cells of a row, once refreshed without an exception: every unknown
    name that is not a filler has its warning. *)
Lemma refresh_items_warn row st s :
  (for_each refresh_item row st).1.1 = Ret tt →
  Str s ∈ row → zones (zm st) !! s = None → all_dots s = false →
  LogWarning s ∈ (for_each refresh_item row st).2.
Proof.
  revert st. induction row as [|item rest IH]; intros st.
  { by intros _ ?%elem_of_nil. }
  rewrite for_each_cons_run.
  pose proof (keeps_show_refresh_item item st) as Hhead.
  pose proof (refresh_item_unknown s st) as Hunknown.
  destruct (refresh_item item st) as [[[[]|e] st1] e1] eqn:Hitem;
    simpl in *; [|done].
  specialize (IH st1).
  destruct (for_each refresh_item rest st1) as [[r st2] e2]; simpl in *.
  intros -> Hin Hs Hdots. apply elem_of_app.
  apply elem_of_cons in Hin as [<-|Hin].
  - left. rewrite (Hunknown Hs) in Hitem. injection Hitem as _ <-.
    rewrite Hdots. left.
  - right. apply IH; [done..| |done]. by eapply show_rel_unknown.
Qed.

Lemma measure_rows_warn rows st hs row s :
  (measure_rows rows st).1.1 = Ret hs →
  row ∈ rows → Str s ∈ row →
  zones (zm st) !! s = None → all_dots s = false →
  LogWarning s ∈ (measure_rows rows st).2.
Proof.
  revert st hs. induction rows as [|row0 rest IH]; intros st hs.
  { by intros _ ?%elem_of_nil. }
  rewrite measure_rows_cons_run.
  pose proof (refresh_items_warn row0 st s) as Hhead.
  pose proof (keeps_for_each show_rel show_rel_refl show_rel_trans
                refresh_item row0 keeps_show_refresh_item st) as Hrel.
  destruct (for_each refresh_item row0 st) as [[[[]|e] st1] e1];
    simpl in *; [|done].
  destruct (map_each get_element_height row0 st1) as [[[ihs|e] ?] ?]; simpl;
    [|done].
  specialize (IH st1).
  destruct (measure_rows rest st1) as [[[hs'|e] st2] e2]; simpl in *; [|done].
  intros _ Hrow Hin Hs Hdots. apply elem_of_app.
  apply elem_of_cons in Hrow as [->|Hrow].
  - left. by apply Hhead.
  - right. eapply IH; [done..| |done]. by eapply show_rel_unknown.
Qed.

(** X3.  When [show] ends without an exception, it has logged a warning
    for every string in a cell of the markup that is neither a key of the
    zones nor made of dots only. *)
Theorem show_warns_every_unknown_name st row s :
  (show st).1.1 = Ret tt →
  row ∈ markup (zm st) → Str s ∈ row →
  zones (zm st) !! s = None → all_dots s = false →
  LogWarning s ∈ (show st).2.
Proof.
  rewrite show_run.
  pose proof (measure_rows_warn (markup (zm st)) st) as Hfirst.
  destruct (measure_rows (markup (zm st)) st) as [[[hs|e] st1] e1];
    simpl in *; [|done].
  destruct (draw_rows (redistribute (o_height (zm st1)) hs) O 0
                      (markup (zm st)) st1) as [[[y|e] st2] e2];
    simpl in *; [|done].
  intros _ Hrow Hin Hs Hdots. apply elem_of_app. left.
  by eapply Hfirst.
Qed.

Lemma map_each_cons_run {A B} (f : A → M W B) a l st :
  map_each f (a :: l) st =
    match f a st with
    | (Ret b, st1, e1) =>
        match map_each f l st1 with
        | (Ret bs, st2, e2) => (Ret (b :: bs), st2, e1 ++ e2)
        | (Raise x, st2, e2) => (Raise x, st2, e1 ++ e2)
        end
    | (Raise x, st1, e1) => (Raise x, st1, e1)
    end.
Proof.
  simpl. run_M. destruct (f a st) as [[[b|x] st1] e1]; [|done].
  destruct (map_each f l st1) as [[[bs|x] st2] e2]; simpl; [|done].
  by rewrite app_nil_r.
Qed.

(** [get_element_height], run on a machine. *)
Lemma get_element_height_run element st :
  get_element_height element st =
    (match element with
     | Str s =>
         match zones (zm st) !! s with
         | Some zone =>
             match get_image zone with
             | Some img => Ret (Some (height img))
             | None => Raise AttributeError
             end
         | None => Ret None
         end
     | ZoneSpacer _ => Ret None
     | VerticalZoneSpacer v => Ret (Some v)
     end, st, []).
Proof.
  unfold get_element_height. run_M.
  destruct element as [s|v|v]; try done.
  destruct (zones (zm st) !! s) as [zone|]; [|done].
  by destruct (get_image zone).
Qed.

(** [get_element_width], run on a machine. *)
Lemma get_element_width_run element st :
  get_element_width element st =
    (match element with
     | Str s =>
         match zones (zm st) !! s with
         | Some zone =>
             match get_image zone with
             | Some img => Ret (Some (width img))
             | None => Raise AttributeError
             end
         | None => Ret None
         end
     | ZoneSpacer v => Ret (Some v)
     | VerticalZoneSpacer _ => Ret None
     end, st, []).
Proof.
  unfold get_element_width. run_M.
  destruct element as [s|v|v]; try done.
  destruct (zones (zm st) !! s) as [zone|]; [|done].
  by destruct (get_image zone).
Qed.

(** The heights of a row, measured without an exception: every zone that
    the row names has an image. *)
Lemma item_heights_images row st hs k zone :
  (map_each get_element_height row st).1.1 = Ret hs →
  Str k ∈ row → zones (zm st) !! k = Some zone →
  is_Some (get_image zone).
Proof.
  revert hs. induction row as [|c rest IH]; intros hs.
  { by intros _ ?%elem_of_nil. }
  rewrite map_each_cons_run, get_element_height_run.
  intros Hret Hin Hk. apply elem_of_cons in Hin as [<-|Hin].
  - rewrite Hk in Hret. destruct (get_image zone); [eauto|done].
  - destruct (match c with
              | Str s => _
              | ZoneSpacer _ => _
              | VerticalZoneSpacer v => _
              end) as [h|e]; [|done].
    destruct (map_each get_element_height rest st) as [[[hs'|e] st'] e'];
      simpl in *; [|done].
    by eapply IH.
Qed.

Lemma measure_rows_images rows st hs row k zone :
  (measure_rows rows st).1.1 = Ret hs →
  row ∈ rows → Str k ∈ row →
  zones (zm (measure_rows rows st).1.2) !! k = Some zone →
  is_Some (get_image zone).
Proof.
  revert st hs. induction rows as [|row0 rest IH]; intros st hs.
  { by intros _ ?%elem_of_nil. }
  rewrite measure_rows_cons_run.
  destruct (for_each refresh_item row0 st) as [[[[]|e] st1] e1];
    simpl in *; [|done].
  pose proof (item_heights_images row0 st1) as Hhead.
  destruct (map_each get_element_height row0 st1) as [[[ihs|e] ?] ?];
    simpl in *; [|done].
  specialize (IH st1).
  pose proof (keeps_show_measure_rows rest st1) as Hrel.
  destruct (measure_rows rest st1) as [[[hs'|e] st2] e2]; simpl in *; [|done].
  intros _ Hrow Hin Hk.
  apply elem_of_cons in Hrow as [->|Hrow]; [|by eapply IH].
  destruct Hrel as (Hz & _ & _ & _ & _ & Himgs & _).
  assert (is_Some (zones (zm st1) !! k)) as [z1 Hz1]
    by (apply Hz; eauto).
  destruct (Himgs k z1 Hz1) as (z' & Hz' & Himg').
  { by eapply Hhead. }
  congruence.
Qed.

(** X4.  When [show] ends without an exception, every zone that the
    markup names has an image: a zone that is still without one (its value
    callback has only ever returned [None]) makes [show] raise. *)
Theorem show_completes_only_with_images st row k zone :
  (show st).1.1 = Ret tt →
  row ∈ markup (zm st) → Str k ∈ row →
  zones (zm (show st).1.2) !! k = Some zone →
  is_Some (get_image zone).
Proof.
  rewrite show_run.
  pose proof (measure_rows_images (markup (zm st)) st) as Hfirst.
  destruct (measure_rows (markup (zm st)) st) as [[[hs|e] st1] e1];
    simpl in *; [|done].
  pose proof (keeps_second_draw_rows (redistribute (o_height (zm st1)) hs)
                O 0 (markup (zm st)) st1) as (Hz2 & _).
  destruct (draw_rows (redistribute (o_height (zm st1)) hs) O 0
                      (markup (zm st)) st1) as [[[y|e] st2] e2];
    simpl in *; [|done].
  intros _ Hrow Hin Hk. rewrite Hz2 in Hk. by eapply Hfirst.
Qed.

End ShowCompletes.

(** ** ZoneManager: the exceptions that [show] does not raise *)

Section Safe.

Context {W : Type}.
Variable P : Machine W → Prop.
Variable x : exn.

Lemma safe_ret {A} (a : A) : safe P x (mret a).
Proof. by intros st HP. Qed.

Lemma safe_raise {A} (x' : exn) : x' ≠ x → safe P x (@raise W A x').
Proof. intros Hne st HP. split; [exact HP|]. simpl. congruence. Qed.

Lemma safe_gets {A} (f : ZoneManager W → A) : safe P x (gets f).
Proof. by intros st HP. Qed.

Lemma safe_emit ev : safe P x (emit ev).
Proof. by intros st HP. Qed.

Lemma safe_bind {A B} (m : M W A) (f : A → M W B) :
  safe P x m → (∀ a, safe P x (f a)) → safe P x (m ≫= f).
Proof.
  intros Hm Hf st HP. run_M. destruct (Hm st HP) as [HP1 Hx1].
  destruct (m st) as [[[a|x'] st1] e1]; simpl in *;
    [|split; [done|]; intros [= ->]; by apply Hx1].
  destruct (Hf a st1 HP1) as [HP2 Hx2].
  by destruct (f a st1) as [[r st2] e2].
Qed.

Lemma safe_for_each {A} (f : A → M W unit) (l : list A) :
  (∀ a, safe P x (f a)) → safe P x (for_each f l).
Proof.
  intros Hf. induction l as [|a l IH]; simpl.
  - apply safe_ret.
  - apply safe_bind; [apply Hf | intros _; apply IH].
Qed.

Lemma safe_map_each {A B} (f : A → M W B) (l : list A) :
  (∀ a, safe P x (f a)) → safe P x (map_each f l).
Proof.
  intros Hf. induction l as [|a l IH]; simpl.
  - apply safe_ret.
  - apply safe_bind; [apply Hf | intros b].
    apply safe_bind; [apply IH | intros bs; apply safe_ret].
Qed.

Lemma safe_py_iadd n width : x ≠ TypeError → safe P x (py_iadd n width).
Proof. intros Hne. destruct width; [apply safe_ret | by apply safe_raise]. Qed.

Lemma safe_py_index {A} (l : list A) i :
  x ≠ IndexError → safe P x (py_index l i).
Proof.
  intros Hne. unfold py_index.
  destruct (l !! i); [apply safe_ret | by apply safe_raise].
Qed.

Lemma safe_get_element_height element :
  x ≠ AttributeError → safe P x (get_element_height element).
Proof.
  intros Hne st HP. rewrite get_element_height_run; simpl. split; [done|].
  destruct element as [s|v|v]; try done.
  destruct (zones (zm st) !! s) as [zone|]; [|done].
  destruct (get_image zone); [done|congruence].
Qed.

Lemma safe_get_element_width element :
  x ≠ AttributeError → safe P x (get_element_width element).
Proof.
  intros Hne st HP. rewrite get_element_width_run; simpl. split; [done|].
  destruct element as [s|v|v]; try done.
  destruct (zones (zm st) !! s) as [zone|]; [|done].
  destruct (get_image zone); [done|congruence].
Qed.

End Safe.

(** Goals [safe P x m] for an [m] made of the operations above; [tac]
    closes the goals on the operations that are particular to a loop. *)
Ltac safe_with tac :=
  repeat first
    [ assumption
    | tac
    | apply safe_ret
    | apply safe_gets
    | apply safe_emit
    | apply safe_raise; done
    | apply safe_py_index; done
    | apply safe_py_iadd; done
    | apply safe_get_element_height; done
    | apply safe_get_element_width; done
    | apply safe_bind; [|intros ?]
    | apply safe_for_each; intros ?
    | apply safe_map_each; intros ? ].

Section NoKeyError.

Context {W : Type}.
Implicit Types (st : Machine W).

Lemma show_rel_cover st st' evs :
  show_rel st st' evs → flags_cover st → flags_cover st'.
Proof.
  intros (Hz & Hf & _) Hcover k Hk. apply Hf, Hcover. by apply Hz.
Qed.

Lemma safe_KeyError_refresh_item item :
  safe (W:=W) flags_cover KeyError (refresh_item item).
Proof.
  intros st Hcover.
  split; [eapply show_rel_cover; [apply keeps_show_refresh_item|done]|].
  destruct item as [s|v|v]; try done.
  destruct (zones (zm st) !! s) as [zone|] eqn:Hs.
  2:{ rewrite (refresh_item_unknown _ _ Hs). done. }
  unfold refresh_item, call_refresh, flag_of. run_M. rewrite Hs; simpl.
  destruct (returned (refresh zone (world st))); simpl; [|done].
  destruct (Hcover s) as [b Hb]; [by rewrite Hs|].
  unfold flags_of in Hb. rewrite Hb; simpl. by destruct b.
Qed.

Lemma safe_KeyError_draw_item item_widths y i x item :
  safe (W:=W) flags_cover KeyError (draw_item item_widths y i x item).
Proof.
  intros st Hcover.
  split; [eapply show_rel_cover; [apply keeps_show_draw_item|done]|].
  rewrite draw_item_run.
  destruct (item_widths !! i) as [width|]; simpl; [|done].
  destruct (zone_of (zones (zm st)) item) as [[s zone]|] eqn:Hzone; simpl.
  2:{ by destruct width. }
  apply zone_of_Some in Hzone as [-> Hs].
  destruct (Hcover s) as [b Hb]; [by rewrite Hs|].
  rewrite Hb. by destruct b, width.
Qed.

Lemma safe_KeyError_show : safe (W:=W) flags_cover KeyError show.
Proof.
  assert (∀ rows, safe (W:=W) flags_cover KeyError (measure_rows rows))
    as Hfirst.
  { induction rows as [|row rest IH]; simpl;
      safe_with ltac:(apply safe_KeyError_refresh_item). }
  assert (∀ ws y i x items,
            safe (W:=W) flags_cover KeyError (draw_items ws y i x items))
    as Hitems.
  { intros ws y i x items. revert i x.
    induction items as [|item rest IH]; intros i x; simpl;
      safe_with ltac:(apply safe_KeyError_draw_item || apply IH). }
  assert (∀ hs i y rows,
            safe (W:=W) flags_cover KeyError (draw_rows hs i y rows))
    as Hsecond.
  { intros hs i y rows. revert i y.
    induction rows as [|row rest IH]; intros i y; simpl; [safe_with fail|].
    apply safe_bind; [|intros y1; apply IH].
    unfold draw_row. safe_with ltac:(apply Hitems). }
  unfold show. safe_with ltac:(apply Hfirst || apply Hsecond).
Qed.

(** Construction leaves a flag for every zone. *)
Lemma ZoneManager_init_cover ow oh mk (zs : gmap string (Zone W)) w :
  flags_cover (ZoneManager_init ow oh mk zs w).1.2.
Proof.
  unfold ZoneManager_init, refresh_on_start. run_M.
  set (st := {| zm := {| zones := zs; markup := mk;
                         zones_that_need_refresh := ∅;
                         o_width := ow; o_height := oh |};
                world := w |}).
  destruct (refresh_all_run (map_to_list zs) st) as (_ & Hout & Hin).
  { apply NoDup_fst_map_to_list. }
  destruct (for_each refresh_and_flag (map_to_list zs) st) as [[r st1] e1];
    simpl in *.
  intros k Hk. destruct (zs !! k) as [z|] eqn:Hzs.
  - destruct (Hin k z) as [-> _]; [by apply elem_of_map_to_list|eauto].
  - destruct (Hout k) as [_ Hsame].
    { intros ([k' z] & -> & Hkz%elem_of_map_to_list)%list_elem_of_fmap.
      simpl in Hzs. congruence. }
    rewrite Hsame in Hk. simpl in Hk. rewrite Hzs in Hk. by destruct Hk.
Qed.

(** X5.  After construction and any number of calls of [show], however
    they ended, [show] does not raise [KeyError]: every zone has its
    flag. *)
Theorem show_never_raises_KeyError ow oh mk (zs : gmap string (Zone W)) w st w' :
  shown_from (ZoneManager_init ow oh mk zs w).1.2 st →
  flags_cover st ∧
  (show {| zm := zm st; world := w' |}).1.1 ≠ Raise KeyError.
Proof.
  intros Hreach.
  assert (flags_cover st) as Hcover.
  { induction Hreach as [|st' w0 _ IH].
    - apply ZoneManager_init_cover.
    - by apply (safe_KeyError_show {| zm := zm st'; world := w0 |}). }
  split; [done|]. by apply (safe_KeyError_show {| zm := zm st; world := w' |}).
Qed.

End NoKeyError.

Section NoIndexError.

Context {W : Type}.
Implicit Types (st : Machine W).

Lemma map_each_length {A B} (f : A → M W B) (l : list A) st bs :
  (map_each f l st).1.1 = Ret bs → length bs = length l.
Proof.
  revert st bs. induction l as [|a l IH]; intros st bs.
  { by intros [= <-]. }
  rewrite map_each_cons_run.
  destruct (f a st) as [[[b|e] st1] e1]; [|done].
  specialize (IH st1).
  destruct (map_each f l st1) as [[[bs'|e] st2] e2]; simpl in *; [|done].
  intros [= <-]. simpl. f_equal. by apply IH.
Qed.

Lemma raise_neq {A B} (e x : exn) :
  @Raise A e ≠ Raise x → @Raise B e ≠ Raise x.
Proof. intros Hne [= ->]. by apply Hne. Qed.

Lemma safe_IndexError_measure_rows rows :
  safe (W:=W) (λ _, True) IndexError (measure_rows rows).
Proof.
  assert (∀ item, safe (W:=W) (λ _, True) IndexError (refresh_item item))
    as Hitem.
  { intros item st _. split; [done|].
    destruct item as [s|v|v]; try done.
    destruct (zones (zm st) !! s) as [zone|] eqn:Hs.
    2:{ by rewrite (refresh_item_unknown _ _ Hs). }
    unfold refresh_item, call_refresh, flag_of. run_M. rewrite Hs; simpl.
    destruct (returned (refresh zone (world st))); simpl; [|done].
    by destruct (zones_that_need_refresh (zm st) !! s) as [[|]|]. }
  induction rows as [|row rest IH]; simpl; safe_with ltac:(apply Hitem).
Qed.

Lemma draw_items_no_IndexError item_widths y items i x st :
  (i + length items ≤ length item_widths)%nat →
  (draw_items item_widths y i x items st).1.1 ≠ Raise IndexError.
Proof.
  revert i x st. induction items as [|item rest IH]; intros i x st Hlen;
    [done|].
  simpl in *. run_M. rewrite draw_item_run.
  destruct (lookup_lt_is_Some_2 item_widths i) as [width ->]; [lia|].
  destruct (zone_of (zones (zm st)) item) as [[s zone]|]; simpl;
    [destruct (flags_of st !! s) as [[|]|]; simpl|];
    destruct width as [n|]; simpl; try done;
    match goal with
    | |- context [draw_items ?ws ?y0 ?i0 ?a ?l ?s0] =>
        pose proof (IH i0 a s0) as IH';
        destruct (draw_items ws y0 i0 a l s0) as [[r0 st2] e2];
        simpl in *; apply IH'; lia
    end.
Qed.

Lemma draw_row_no_IndexError row_heights i y row st :
  (i < length row_heights)%nat →
  (draw_row row_heights i y row st).1.1 ≠ Raise IndexError.
Proof.
  intros Hlen. unfold draw_row, py_index. run_M.
  destruct (lookup_lt_is_Some_2 row_heights i) as [row_height ->]; [done|].
  simpl.
  pose proof (map_each_length get_element_width row st) as Hws.
  assert (safe (W:=W) (λ _, True) IndexError
               (map_each get_element_width row)) as Hsafe
    by safe_with fail.
  destruct (Hsafe st I) as [_ Hwidths].
  destruct (map_each get_element_width row st) as [[[ws|e] st0] e0];
    simpl in *; [|by eapply raise_neq].
  pose proof (draw_items_no_IndexError
                (redistribute (o_width (zm st0)) ws) y row O 0 st0) as Hitems.
  destruct (draw_items (redistribute (o_width (zm st0)) ws) y O 0 row st0)
    as [[[x1|e] st1] e1]; simpl in *.
  - by destruct row_height.
  - apply Hitems. rewrite redistribute_length, (Hws ws eq_refl). lia.
Qed.

Lemma draw_rows_no_IndexError row_heights rows i y st :
  (i + length rows ≤ length row_heights)%nat →
  (draw_rows row_heights i y rows st).1.1 ≠ Raise IndexError.
Proof.
  revert i y st. induction rows as [|row rest IH]; intros i y st Hlen;
    [done|].
  simpl in *. run_M.
  pose proof (draw_row_no_IndexError row_heights i y row st) as Hrow.
  destruct (draw_row row_heights i y row st) as [[[y1|e] st1] e1];
    simpl in *; [|apply Hrow; lia].
  specialize (IH (S i) y1 st1).
  destruct (draw_rows row_heights (S i) y1 rest st1) as [[r st2] e2].
  simpl in *. apply IH. lia.
Qed.

(** X6.  [show] does not raise [IndexError], whatever the manager: the
    list of row heights is as long as the markup and the list of widths of
    a row is as long as the row. *)
Theorem show_never_raises_IndexError st :
  (show st).1.1 ≠ Raise IndexError.
Proof.
  rewrite show_run.
  pose proof (safe_IndexError_measure_rows (markup (zm st)) st I)
    as [_ Hfirst].
  pose proof (measure_rows_row_heights (markup (zm st)) st) as Hhs.
  destruct (measure_rows (markup (zm st)) st) as [[[hs|e] st1] e1];
    simpl in *; [|by eapply raise_neq].
  destruct (Hhs hs eq_refl) as (heights & -> & Hall).
  pose proof (draw_rows_no_IndexError
                (redistribute (o_height (zm st1)) (row_height_of <$> heights))
                (markup (zm st)) O 0 st1) as Hsecond.
  destruct (draw_rows _ O 0 (markup (zm st)) st1) as [[[y|e] st2] e2];
    simpl in *; [done|].
  eapply raise_neq, Hsecond.
  rewrite redistribute_length, length_fmap, <- (Forall2_length _ _ _ Hall).
  lia.
Qed.

End NoIndexError.

(** ** ZoneManager: a frame in which nothing changed *)

Section Quiet.

Context {W : Type}.
Implicit Types (st : Machine W).







End Quiet.

(** ** Zone: the previous value and the cache *)

Section ZoneMore.

Context {W : Type}.
Implicit Types (z : Zone W) (w : W).

(** X8.  A refresh either sees a new value, and then returns true, stores
    it, moves the value it replaces to [prev_value] and leaves the zone
    with an image; or sees the stored value, and then returns false and
    leaves the zone untouched, without an event: the image callback is not
    invoked. *)
Theorem refresh_tracks_previous_value z w :
  new_value_of z w ≠ value (attrs z) ∧
  returned (refresh z w) = true ∧
  value (attrs (zone_after (refresh z w))) = new_value_of z w ∧
  prev_value (attrs (zone_after (refresh z w))) = value (attrs z) ∧
  is_Some (get_image (zone_after (refresh z w)))
  ∨
  new_value_of z w = value (attrs z) ∧
  returned (refresh z w) = false ∧
  zone_after (refresh z w) = z ∧
  emitted (refresh z w) = [].
Proof.
  destruct (decide (new_value_of z w = value (attrs z))) as [Heq|Hne].
  - right. unfold refresh. by rewrite (needs_refresh_same _ _ Heq).
  - left. split; [done|]. unfold refresh.
    rewrite (needs_refresh_changed _ _ Hne); simpl.
    set (z1 := set_attrs z (shift_value (attrs z) (new_value_of z w))).
    set (w1 := (value_cb z (value_cb_self z) w).2).
    assert (value (attrs (zone_after (update_image z1 w1))) =
              new_value_of z w ∧
            prev_value (attrs (zone_after (update_image z1 w1))) =
              value (attrs z)) as [-> ->]; [|by eauto].
    unfold update_image; simpl.
    destruct (caching (attrs z)); simpl;
      [destruct (cache (attrs z) !! new_value_of z w); simpl; [done|]|];
      match goal with
      | |- context [image_cb ?a ?b ?c ?d] => by destruct (image_cb a b c d)
      end.
Qed.

(** X9.  From construction on, through any calls of [refresh]: a zone
    without caching never stores anything in its cache; a zone with
    caching either has not seen a value yet (no value, no image, an empty
    cache), or its image is the entry of the cache for its value. *)
Theorem image_is_the_cached_entry vcb icb (c : bool) ip vp n z :
  refreshed_from (Zone_init vcb icb c ip vp n) z →
  caching (attrs z) = c ∧
  if c then
    get_image z = None ∧ value (attrs z) = VNone ∧ cache (attrs z) = ∅ ∨
    is_Some (get_image z) ∧ cache (attrs z) !! value (attrs z) = get_image z
  else cache (attrs z) = ∅.
Proof.
  induction 1 as [|z' w' _ [Hc IH]].
  { split; [done|]. destruct c; [left|]; done. }
  destruct (refresh_frame z' w') as (Hc' & _). split; [congruence|].
  unfold refresh.
  destruct (decide (new_value_of z' w' = value (attrs z'))) as [Heq|Hne].
  { by rewrite (needs_refresh_same _ _ Heq). }
  rewrite (needs_refresh_changed _ _ Hne); simpl.
  set (z1 := set_attrs z' (shift_value (attrs z') (new_value_of z' w'))).
  set (w1 := (value_cb z' (value_cb_self z') w').2).
  assert (caching (attrs z1) = c) as Hc1 by done.
  destruct c.
  - right. unfold get_image; simpl. split; [eauto|].
    destruct (cache (attrs z1) !! value (attrs z1)) as [i|] eqn:Hv.
    + by rewrite (update_image_hit _ _ _ Hc1 Hv).
    + rewrite (update_image_miss _ _ Hc1 Hv); simpl. apply lookup_insert_eq.
  - by rewrite (update_image_nocache _ _ Hc1).
Qed.

End ZoneMore.

(** ** Layout: what the redistribution adds up to *)

Section LayoutMore.

Implicit Types (l : list (option Z)) (D : Z).

(** The loop over the whole list fills every [None]. *)
Lemma fill_auto_all spacing l :
  fill_auto spacing (length l) O l =
    (λ o, match o with None => Some spacing | Some _ => o end) <$> l.
Proof.
  apply list_eq. intros j.
  rewrite fill_auto_lookup, list_lookup_fmap.
  destruct (l !! j) as [[h|]|] eqn:Hj; simpl; case_decide; try done.
  apply lookup_lt_Some in Hj. lia.
Qed.

Lemma known_total_filter l : known_total l = py_sum (py_filter_None l).
Proof.
  unfold known_total, py_filter_None, py_sum.
  induction l as [|[h|] l IH]; csimpl; [done| |done].
  case_decide; csimpl; lia.
Qed.

Lemma known_total_filled spacing l :
  known_total ((λ o, match o with None => Some spacing | Some _ => o end) <$> l)
  = known_total l + Z.of_nat (count_None l) * spacing.
Proof.
  unfold known_total, py_sum. induction l as [|[h|] l IH]; csimpl; lia.
Qed.

Lemma count_None_filled spacing l :
  count_None ((λ o, match o with None => Some spacing | Some _ => o end) <$> l)
  = O.
Proof. induction l as [|[h|] l IH]; csimpl; done. Qed.

(** X10.  When there are auto sizes and space is left, the redistribution
    resolves every size, and the sizes then add up to at most the total
    [D] and to more than [D] less the number of auto sizes: the rounding
    down loses less than one unit per auto size, and never overflows. *)
Theorem redistribute_fills_the_total D l :
  count_None l ≠ O →
  D - py_sum (py_filter_None l) > 0 →
  count_None (redistribute D l) = O ∧
  D - Z.of_nat (count_None l) < known_total (redistribute D l) ≤ D.
Proof.
  intros Hauto Hspace. unfold redistribute.
  rewrite decide_False by done. rewrite decide_True by done.
  rewrite fill_auto_all, count_None_filled, known_total_filled.
  rewrite known_total_filter. split; [done|].
  set (H := py_sum (py_filter_None l)) in *.
  set (M := Z.of_nat (count_None l)).
  assert (0 < M) as HM by (unfold M; lia).
  pose proof (Z.mul_div_le (D - H) M HM).
  pose proof (Z.mul_succ_div_gt (D - H) M HM).
  lia.
Qed.

(** X11.  Redistributing twice is redistributing once. *)
Theorem redistribute_idempotent D l :
  redistribute D (redistribute D l) = redistribute D l.
Proof.
  destruct (decide (count_None l = O)) as [Hn|Hn].
  { assert (redistribute D l = l) as Hsame
      by (unfold redistribute; by rewrite decide_True).
    by rewrite !Hsame. }
  destruct (decide (D - py_sum (py_filter_None l) > 0)) as [Hs|Hs].
  - assert (redistribute D l =
            (λ o, match o with
                  | None => Some ((D - py_sum (py_filter_None l))
                                  / Z.of_nat (count_None l))
                  | Some _ => o
                  end) <$> l) as ->.
    { unfold redistribute. rewrite decide_False by done.
      rewrite decide_True by done. apply fill_auto_all. }
    unfold redistribute. by rewrite count_None_filled, decide_True.
  - assert (redistribute D l = l) as Hsame.
    { unfold redistribute. rewrite decide_False by done.
      by rewrite decide_False. }
    by rewrite !Hsame.
Qed.

End LayoutMore.

(** ** utils.py: clamping and list indices *)

Section UtilsFacts.

Import Utils.

(** X12.  With bounds in order, [clamp] returns a value between the
    bounds, returns its argument exactly when that lies between the bounds,
    and clamping again changes nothing. *)
Theorem clamp_within_bounds (value _min _max : Z) :
  _min ≤ _max →
  _min ≤ clamp value _min _max ≤ _max ∧
  (clamp value _min _max = value ↔ _min ≤ value ≤ _max) ∧
  clamp (clamp value _min _max) _min _max = clamp value _min _max.
Proof. unfold clamp. lia. Qed.

(** X13.  With the bounds the wrong way round, [clamp] returns the lower
    bound [_min], whatever the value. *)
Theorem clamp_inverted_bounds (value _min _max : Z) :
  _max < _min → clamp value _min _max = _min.
Proof. unfold clamp. lia. Qed.

Lemma py_getitem_in_range {A} (l : list A) (i : Z) :
  0 ≤ i < Z.of_nat (length l) → is_Some (py_getitem l i).
Proof.
  intros Hi. unfold py_getitem. rewrite decide_True by lia.
  apply lookup_lt_is_Some_2. lia.
Qed.

(** X14.  On a list that is not empty, [modulo_list_index] returns an
    index at which the list has an item, the index itself when it is
    already in range, and the same index for a value one length of the
    list further; on the empty list it fails, with a division by zero. *)
Theorem modulo_list_index_is_valid {A} (value : Z) (_list : list A) :
  _list ≠ [] →
  (∃ i, modulo_list_index value _list = Some i ∧
        0 ≤ i < Z.of_nat (length _list) ∧
        is_Some (py_getitem _list i) ∧
        (0 ≤ value < Z.of_nat (length _list) → i = value) ∧
        modulo_list_index (value + Z.of_nat (length _list)) _list = Some i) ∧
  modulo_list_index value (@nil A) = None.
Proof.
  intros Hne. split; [|done].
  assert (length _list ≠ O) as Hlen by by destruct _list.
  unfold modulo_list_index. rewrite !decide_False by done.
  exists (value `mod` Z.of_nat (length _list)).
  pose proof (Z.mod_pos_bound value (Z.of_nat (length _list))) as Hb.
  split; [done|]. split; [lia|].
  split; [apply py_getitem_in_range; lia|].
  split; [intros Hv; by apply Z.mod_small|].
  f_equal. rewrite <- (Z.mul_1_l (Z.of_nat (length _list))) at 1.
  apply Z.mod_add. lia.
Qed.

(** X15.  On a list that is not empty, [clamp_list_index] returns an index
    at which the list has an item: the first for a value at or below 0, the
    last for a value at or beyond the end, the value itself otherwise. *)
Theorem clamp_list_index_is_valid {A} (value : Z) (_list : list A) :
  _list ≠ [] →
  0 ≤ clamp_list_index value _list < Z.of_nat (length _list) ∧
  is_Some (py_getitem _list (clamp_list_index value _list)) ∧
  (value ≤ 0 → clamp_list_index value _list = 0) ∧
  (Z.of_nat (length _list) - 1 ≤ value →
   clamp_list_index value _list = Z.of_nat (length _list) - 1) ∧
  (0 ≤ value < Z.of_nat (length _list) → clamp_list_index value _list = value).
Proof.
  intros Hne.
  assert (length _list ≠ O) as Hlen by by destruct _list.
  assert (0 ≤ clamp_list_index value _list < Z.of_nat (length _list)) as Hi
    by (unfold clamp_list_index, clamp; lia).
  split; [done|]. split; [by apply py_getitem_in_range|].
  unfold clamp_list_index, clamp. lia.
Qed.

(** X16.  On the empty list, [clamp_list_index] returns 0 whatever the
    value, and the list has no item there. *)
Theorem clamp_list_index_of_empty {A} (value : Z) :
  clamp_list_index value (@nil A) = 0 ∧
  py_getitem (@nil A) (clamp_list_index value (@nil A)) = None.
Proof.
  assert (clamp_list_index value (@nil A) = 0) as ->
    by (unfold clamp_list_index, clamp; simpl; lia).
  done.
Qed.

End UtilsFacts.

(** ** utils.py: the chronometer *)

Section ChronoFacts.

Import Chrono.

Context {T : Type} (t_zero : T) (t_add t_sub : T → T → T).

Lemma updates_inactive (nows : list T) (c : Chronometer) :
  active c = false → updates t_add t_sub nows c = c.
Proof.
  intros Hc. unfold updates. induction nows as [|now nows IH]; simpl; [done|].
  unfold update at 2. by rewrite Hc.
Qed.

(** X17.  While the chronometer is paused, updates change nothing; after
    [resume] at [t2], an update at [t3] adds the time from [t2] to [t3] to
    what was measured before the pause: the time spent paused is not
    counted, whenever the ticker was last read. *)
Theorem paused_time_is_not_counted (c : Chronometer) (nows : list T) (t2 t3 : T) :
  updates t_add t_sub nows (pause c) = pause c ∧
  active (resume t_sub t2 (updates t_add t_sub nows (pause c))) = true ∧
  elapsed (update t_add t_sub t3
             (resume t_sub t2 (updates t_add t_sub nows (pause c)))) =
    t_add (elapsed c) (t_sub t3 t2).
Proof. by rewrite updates_inactive. Qed.

(** X18.  [start] (and so [restart]) forgets what was measured: whatever
    the chronometer was, after [start] it is active, an update at [t3]
    leaves as elapsed time [0] plus the time from the second clock reading
    of [start] to [t3], a further update at [t4] adds the time from [t3] to
    [t4], and [stop] leaves it inactive with [0] elapsed. *)
Theorem start_measures_from_now (c : Chronometer) (t1 t2 t3 t4 : T) :
  let c1 := update t_add t_sub t3 (start t_zero t_sub t1 t2 c) in
  restart t_zero t_sub t1 t2 c = start t_zero t_sub t1 t2 c ∧
  active c1 = true ∧
  elapsed c1 = t_add t_zero (t_sub t3 t2) ∧
  elapsed (update t_add t_sub t4 c1) =
    t_add (t_add t_zero (t_sub t3 t2)) (t_sub t4 t3) ∧
  active (stop t_zero t_sub t4 c1) = false ∧
  elapsed (stop t_zero t_sub t4 c1) = t_zero.
Proof. done. Qed.

End ChronoFacts.

(** ** loading_indicators.py *)

Section LoadingFacts.

Import Loading.

Lemma string_length_app (s1 s2 : string) :
  String.length (s1 +:+ s2) = (String.length s1 + String.length s2)%nat.
Proof. induction s1 as [|c s1 IH]; simpl; [done|]. by rewrite IH. Qed.

Lemma py_str_repeat_dots_length (n : Z) :
  String.length (py_str_repeat "." n) = Z.to_nat n.
Proof.
  unfold py_str_repeat. induction (Z.to_nat n) as [|k IH]; [done|].
  rewrite Nat.iter_succ, string_length_app, IH. done.
Qed.

Lemma refreshes_S n d : refreshes (S n) d = (on_refresh (refreshes n d)).2.
Proof. done. Qed.

Lemma refreshes_state n d :
  message (refreshes n d) = message d ∧
  dot_count (refreshes (S n) d) = (dot_count d + Z.of_nat (S n)) `mod` 4.
Proof.
  induction n as [|n [IHm IHd]].
  - split; [done|]. simpl. done.
  - split.
    + by rewrite refreshes_S.
    + change (dot_count (refreshes (S (S n)) d)) with
        ((dot_count (refreshes (S n) d) + 1) `mod` 4).
      rewrite IHd. rewrite Z.add_mod_idemp_l by done. f_equal. lia.
Qed.

(** X19.  An [IdleDottedMessage], whatever its dot count was: after a call
    of [on_refresh] the dot count is between 0 and 3; the call number
    [n + 1] returns the message followed by as many dots as the dot count
    it started from plus [n + 1], modulo 4. *)
Theorem dotted_message_cycles (d : IdleDottedMessage) (n : nat) :
  let dots := (dot_count d + Z.of_nat (S n)) `mod` 4 in
  0 ≤ dots < 4 ∧
  dot_count (refreshes (S n) d) = dots ∧
  message (refreshes (S n) d) = message d ∧
  (on_refresh (refreshes n d)).1 = message d +:+ py_str_repeat "." dots ∧
  String.length (on_refresh (refreshes n d)).1 =
    (String.length (message d) + Z.to_nat dots)%nat.
Proof.
  intros dots.
  destruct (refreshes_state n d) as [Hm Hd].
  destruct (refreshes_state (S n) d) as [Hm' _].
  assert ((on_refresh (refreshes n d)).1 =
          message d +:+ py_str_repeat "." dots) as Htext.
  { change ((on_refresh (refreshes n d)).1) with
      (message (refreshes n d) +:+
       py_str_repeat "." (dot_count (refreshes (S n) d))).
    by rewrite Hm, Hd. }
  split; [apply Z.mod_pos_bound; lia|]. split; [done|]. split; [done|].
  split; [done|].
  by rewrite Htext, string_length_app, py_str_repeat_dots_length.
Qed.

Lemma background_runs_running fgs li :
  t li = true →
  (background_runs fgs li).1 = O ∧ t (background_runs fgs li).2 = true.
Proof.
  revert li. induction fgs as [|fg rest IH]; intros li Ht; simpl; [done|].
  unfold run_in_background; simpl. rewrite Ht; simpl. by apply IH.
Qed.

(** X20.  However often [run_in_background] is called, and whatever
    [in_foreground] is at each call, at most one thread is started; none is
    when the indicator already has a thread. *)
Theorem run_in_background_starts_once (fgs : list bool) (li : LoadingIndicator) :
  ((background_runs fgs li).1 ≤ 1)%nat ∧
  (if t li then (background_runs fgs li).1 = O
   else if in_foreground li then run_in_background li = None
        else run_in_background li =
               Some {| t := true; in_foreground := false |}).
Proof.
  split.
  - revert li. induction fgs as [|fg rest IH]; intros li; simpl; [lia|].
    unfold run_in_background; simpl.
    destruct (t li) eqn:Ht; simpl; [apply IH|].
    destruct fg; simpl; [apply IH|].
    destruct (background_runs_running rest
                {| t := true; in_foreground := false |} eq_refl) as [Hn _].
    destruct (background_runs rest _) as [n li3]. simpl in *. lia.
  - destruct li as [[] []]; simpl; try done.
    by destruct (background_runs_running fgs
                   {| t := true; in_foreground := true |} eq_refl).
    by destruct (background_runs_running fgs
                   {| t := true; in_foreground := false |} eq_refl).
Qed.

End LoadingFacts.

(** ** ZoneManager: what a completed [show] tells about the sizes *)

Section Resolved.

Context {W : Type}.
Implicit Types (st : Machine W).

Lemma draw_rows_resolved row_heights rows i y st a j :
  (draw_rows row_heights i y rows st).1.1 = Ret a →
  (i ≤ j < i + length rows)%nat →
  row_heights !! j ≠ Some None.
Proof.
  revert i y st. induction rows as [|row rest IH]; intros i y st;
    simpl; [lia|].
  run_M.
  pose proof (draw_row_unresolved_raises row_heights i y row st) as Hhead.
  destruct (draw_row row_heights i y row st) as [[[y1|e] st1] e1];
    simpl in *; [|done].
  specialize (IH (S i) y1 st1).
  destruct (draw_rows row_heights (S i) y1 rest st1) as [[r st2] e2];
    simpl in *.
  intros -> Hj. destruct (decide (j = i)) as [->|Hne].
  - intros Hi. by apply (Hhead y1 Hi).
  - apply IH; [done|lia].
Qed.

Lemma count_None_zero (l : list (option Z)) :
  (∀ j, l !! j ≠ Some None) → count_None l = O.
Proof.
  induction l as [|[h|] l IH]; intros Hall; simpl; [done| |].
  - apply IH. intros j. apply (Hall (S j)).
  - by destruct (Hall O).
Qed.

(** X21.  When [show] ends without an exception, the first loop gave a
    list of row heights in which the redistribution left no [None]: either
    every row had a height of its own, or the height of the output exceeds
    the sum of the known row heights. *)
Theorem show_completes_only_when_rows_resolved st :
  (show st).1.1 = Ret tt →
  ∃ row_heights,
    (measure_rows (markup (zm st)) st).1.1 = Ret row_heights ∧
    length row_heights = length (markup (zm st)) ∧
    count_None (redistribute (o_height (zm st)) row_heights) = O ∧
    (count_None row_heights = O ∨
     o_height (zm st) - py_sum (py_filter_None row_heights) > 0).
Proof.
  rewrite show_run.
  pose proof (measure_rows_row_heights (markup (zm st)) st) as Hhs.
  pose proof (keeps_show_measure_rows (markup (zm st)) st) as Hrel.
  destruct (measure_rows (markup (zm st)) st) as [[[hs|e] st1] e1];
    simpl in *; [|done].
  destruct Hrel as (_ & _ & _ & _ & Hheight & _). rewrite Hheight.
  destruct (Hhs hs eq_refl) as (heights & Heq & Hall).
  assert (length hs = length (markup (zm st))) as Hlen.
  { rewrite Heq, length_fmap. symmetry. by eapply Forall2_length. }
  pose proof (draw_rows_resolved (redistribute (o_height (zm st)) hs)
                (markup (zm st)) O 0 st1) as Hres.
  destruct (draw_rows (redistribute (o_height (zm st)) hs) O 0
                      (markup (zm st)) st1) as [[[y|e] st2] e2];
    simpl in *; [|done].
  intros _. exists hs. split; [done|]. split; [done|].
  assert (count_None (redistribute (o_height (zm st)) hs) = O) as Hnone.
  { apply count_None_zero. intros j Hj.
    apply (Hres y j eq_refl); [|done].
    apply lookup_lt_Some in Hj. rewrite redistribute_length in Hj. lia. }
  split; [done|].
  destruct (decide (count_None hs = O)) as [|Hauto]; [by left|right].
  destruct (decide (o_height (zm st) - py_sum (py_filter_None hs) > 0))
    as [|Hno]; [done|].
  rewrite redistribute_no_space in Hnone by lia. done.
Qed.

(** X22.  When the cells of a row are drawn without an exception, the
    width of every cell was resolved, and the cursor ends at where it
    started plus the sum of the widths: a cell takes its width whether or
    not it was pasted. *)
Theorem drawn_row_advances_by_widths item_widths y items i x st a :
  (draw_items item_widths y i x items st).1.1 = Ret a →
  ∃ widths : list Z,
    take (length items) (drop i item_widths) = Some <$> widths ∧
    a = x + py_sum widths.
Proof.
  revert i x st. induction items as [|item rest IH]; intros i x st; simpl.
  { intros [= <-]. exists []. split; [by rewrite take_0|]. simpl. lia. }
  run_M. rewrite draw_item_run.
  destruct (item_widths !! i) as [width|] eqn:Hi; simpl; [|done].
  destruct (zone_of (zones (zm st)) item) as [[s zone]|]; simpl;
    [destruct (flags_of st !! s) as [[|]|]; simpl|];
    destruct width as [n|]; simpl; try done;
    match goal with
    | |- context [draw_items ?ws ?y0 ?i0 ?a0 ?l ?s0] =>
        pose proof (IH i0 a0 s0) as IH';
        destruct (draw_items ws y0 i0 a0 l s0) as [[r0 st2] e2];
        simpl in *; intros Hret;
        destruct (IH' Hret) as (widths & Htake & ->);
        exists (n :: widths); (split; [|simpl; lia]);
        rewrite (drop_S _ _ _ Hi); simpl; by rewrite Htake
    end.
Qed.

End Resolved.

(** ** The further properties on concrete inputs *)

Section MoreRuns.

Import Sample Utils.

(** X2 on the manager with an unknown name and a filler. *)
Lemma show_warns_only_unknown_names_witness :
  LogWarning "ZZZ" ∈ (show unknown_with_room).2 ∧
  all_dots "ZZZ" = false ∧ zones (zm unknown_with_room) !! "ZZZ" = None ∧
  ∃ row, row ∈ markup (zm unknown_with_room) ∧ Str "ZZZ" ∈ row.
Proof.
  assert (LogWarning "ZZZ" ∈ (show unknown_with_room).2) as H1.
  { vm_compute. apply list_elem_of_here. }
  split; [done|].
  exact (show_warns_only_unknown_names unknown_with_room "ZZZ" H1).
Defined.

(** X3 on the same manager. *)
Lemma show_warns_every_unknown_name_witness :
  ((show unknown_with_room).1.1 = Ret tt ∧
   [Str "ZZZ"] ∈ markup (zm unknown_with_room) ∧
   Str "ZZZ" ∈ [Str "ZZZ"] ∧
   zones (zm unknown_with_room) !! "ZZZ" = None ∧
   all_dots "ZZZ" = false) ∧
  LogWarning "ZZZ" ∈ (show unknown_with_room).2.
Proof.
  assert ((show unknown_with_room).1.1 = Ret tt) as H1
    by (vm_compute; reflexivity).
  assert ([Str "ZZZ"] ∈ markup (zm unknown_with_room)) as H2
    by (vm_compute; apply list_elem_of_here).
  assert (Str "ZZZ" ∈ [Str "ZZZ"]) as H3 by apply list_elem_of_here.
  assert (zones (zm unknown_with_room) !! "ZZZ" = None) as H4
    by (vm_compute; reflexivity).
  assert (all_dots "ZZZ" = false) as H5 by reflexivity.
  split; [done|].
  exact (show_warns_every_unknown_name unknown_with_room [Str "ZZZ"] "ZZZ"
           H1 H2 H3 H4 H5).
Defined.

(** X4 on the manager with the zone ["a"] in two cells. *)
Lemma show_completes_only_with_images_witness :
  (show same_zone_twice).1.1 = Ret tt ∧
  ∃ zone, zones (zm (show same_zone_twice).1.2) !! "a" = Some zone ∧
          is_Some (get_image zone).
Proof.
  assert ((show same_zone_twice).1.1 = Ret tt) as H1
    by (vm_compute; reflexivity).
  assert ([Str "a"; Str "a"] ∈ markup (zm same_zone_twice)) as H2
    by (vm_compute; apply list_elem_of_here).
  assert (Str "a" ∈ [Str "a"; Str "a"]) as H3 by apply list_elem_of_here.
  assert (∃ zone, zones (zm (show same_zone_twice).1.2) !! "a" = Some zone)
    as [zone H4] by (vm_compute; eauto).
  split; [done|]. exists zone. split; [done|].
  exact (show_completes_only_with_images same_zone_twice [Str "a"; Str "a"]
           "a" zone H1 H2 H3 H4).
Defined.

(** X5 on the same manager, after one call of [show]. *)
Lemma show_never_raises_KeyError_witness :
  let st := (show {| zm := zm same_zone_twice; world := tt |}).1.2 in
  shown_from same_zone_twice st ∧
  flags_cover st ∧
  (show {| zm := zm st; world := tt |}).1.1 ≠ Raise KeyError.
Proof.
  intros st.
  assert (shown_from same_zone_twice st) as H1
    by apply shown_again, shown_none.
  split; [done|].
  exact (show_never_raises_KeyError 128 64 [[Str "a"; Str "a"]] one_zone tt
           st tt H1).
Defined.


(** X9 on the caching counter after two refreshes. *)
Lemma image_is_the_cached_entry_witness :
  let z := zone_after (refresh (zone_after (refresh (counter_zone true) 0)) 3) in
  refreshed_from (counter_zone true) z ∧
  caching (attrs z) = true ∧
  (get_image z = None ∧ value (attrs z) = VNone ∧ cache (attrs z) = ∅ ∨
   is_Some (get_image z) ∧ cache (attrs z) !! value (attrs z) = get_image z).
Proof.
  intros z.
  assert (refreshed_from (counter_zone true) z) as H1
    by apply refreshed_again, refreshed_again, refreshed_none.
  split; [done|].
  exact (image_is_the_cached_entry _ _ true false false (Some "counter") z H1).
Defined.

(** X10 on a height of 50 with one known size of 10 and three auto sizes:
    13 each, 49 in all. *)
Lemma redistribute_fills_the_total_witness :
  (count_None [Some 10; None; None; None] ≠ O ∧
   50 - py_sum (py_filter_None [Some 10; None; None; None]) > 0) ∧
  redistribute 50 [Some 10; None; None; None] =
    [Some 10; Some 13; Some 13; Some 13] ∧
  count_None (redistribute 50 [Some 10; None; None; None]) = O ∧
  50 - Z.of_nat (count_None [Some 10; None; None; None]) <
    known_total (redistribute 50 [Some 10; None; None; None]) ≤ 50.
Proof.
  assert (count_None [Some 10; None; None; None] ≠ O) as H1 by discriminate.
  assert (50 - py_sum (py_filter_None [Some 10; None; None; None]) > 0) as H2
    by reflexivity.
  split; [done|]. split; [reflexivity|].
  exact (redistribute_fills_the_total 50 [Some 10; None; None; None] H1 H2).
Defined.

(** X12 on the docstring's bounds. *)
Lemma clamp_within_bounds_witness :
  0 ≤ 100 ∧
  clamp 17 0 100 = 17 ∧ clamp (-89) 0 100 = 0 ∧ clamp 65635 0 100 = 100 ∧
  0 ≤ clamp 65635 0 100 ≤ 100.
Proof.
  assert (0 ≤ 100) as H1 by lia.
  split; [done|]. repeat (split; [reflexivity|]).
  exact (proj1 (clamp_within_bounds 65635 0 100 H1)).
Defined.

(** X13 on bounds the wrong way round. *)
Lemma clamp_inverted_bounds_witness : 0 < 10 ∧ clamp 5 10 0 = 10.
Proof.
  assert (0 < 10) as H1 by lia.
  split; [done|]. exact (clamp_inverted_bounds 5 10 0 H1).
Defined.

(** X14 on the docstring's list. *)
Lemma modulo_list_index_is_valid_witness :
  ["R2D2"; "C3PO"; "HAL9000"] ≠ [] ∧
  modulo_list_index 3 ["R2D2"; "C3PO"; "HAL9000"] = Some 0 ∧
  ∃ i, modulo_list_index 7 ["R2D2"; "C3PO"; "HAL9000"] = Some i ∧
       0 ≤ i < 3.
Proof.
  assert (["R2D2"; "C3PO"; "HAL9000"] ≠ []) as H1 by discriminate.
  split; [done|]. split; [reflexivity|].
  destruct (proj1 (modulo_list_index_is_valid
                     7 ["R2D2"; "C3PO"; "HAL9000"] H1)) as (i & Hi & Hr & _).
  exists i. split; [exact Hi|exact Hr].
Defined.

(** X15 on the docstring's list. *)
Lemma clamp_list_index_is_valid_witness :
  ["Collins"; "Armstrong"; "Aldrin"] ≠ [] ∧
  py_getitem ["Collins"; "Armstrong"; "Aldrin"]
             (clamp_list_index 9000 ["Collins"; "Armstrong"; "Aldrin"])
    = Some "Aldrin" ∧
  py_getitem ["Collins"; "Armstrong"; "Aldrin"]
             (clamp_list_index (-666) ["Collins"; "Armstrong"; "Aldrin"])
    = Some "Collins" ∧
  0 ≤ clamp_list_index 9000 ["Collins"; "Armstrong"; "Aldrin"] < 3.
Proof.
  assert (["Collins"; "Armstrong"; "Aldrin"] ≠ []) as H1 by discriminate.
  split; [done|]. split; [reflexivity|]. split; [reflexivity|].
  exact (proj1 (clamp_list_index_is_valid
                  9000 ["Collins"; "Armstrong"; "Aldrin"] H1)).
Defined.

(** X21 on the manager with an unknown name and a filler: two auto rows on
    a height of 64. *)
Lemma show_completes_only_when_rows_resolved_witness :
  (show unknown_with_room).1.1 = Ret tt ∧
  ∃ row_heights,
    (measure_rows (markup (zm unknown_with_room)) unknown_with_room).1.1 =
      Ret row_heights ∧
    length row_heights = length (markup (zm unknown_with_room)) ∧
    count_None (redistribute (o_height (zm unknown_with_room)) row_heights)
      = O ∧
    (count_None row_heights = O ∨
     o_height (zm unknown_with_room) - py_sum (py_filter_None row_heights) > 0).
Proof.
  assert ((show unknown_with_room).1.1 = Ret tt) as H1
    by (vm_compute; reflexivity).
  split; [done|].
  exact (show_completes_only_when_rows_resolved unknown_with_room H1).
Defined.

(** X22 on the row of two cells for the zone ["a"], 10 wide. *)
Lemma drawn_row_advances_by_widths_witness :
  (draw_items [Some 10; Some 10] 0 O 0 [Str "a"; Str "a"]
              same_zone_twice).1.1 = Ret 20 ∧
  ∃ widths : list Z,
    take 2 (drop 0 [Some 10; Some 10]) = Some <$> widths ∧
    20 = 0 + py_sum widths.
Proof.
  assert ((draw_items [Some 10; Some 10] 0 O 0 [Str "a"; Str "a"]
                      same_zone_twice).1.1 = Ret 20) as H1
    by (vm_compute; reflexivity).
  split; [done|].
  exact (drawn_row_advances_by_widths [Some 10; Some 10] 0
           [Str "a"; Str "a"] O 0 same_zone_twice 20 H1).
Defined.

End MoreRuns.
